(** * Schedule reconciliation engine of [update_tipoff_times.py]

    A shallow embedding of the line parser, the team-name normaliser, the
    fuzzy matcher, the reconciler, the time converter, the line rewriter and
    the per-file driver, followed by the properties proved about them.

    Text model.  A Python [str] is a Rocq [string].  Code points 0..127 are
    ASCII and carry Python's character classes ([str.isspace], [\d], the case
    maps); the remaining 128 values of [ascii] stand for symbols that are
    neither whitespace, nor digits, nor cased.

    Libraries the script imports are not part of it: [fuzzywuzzy] is an
    interface ([FuzzLib]), [re], [datetime.strptime] and [zoneinfo] are
    modelled by the small engines of the first three modules. *)

From Stdlib Require Import ZArith Lia List Bool Ascii String.
Import ListNotations.
Open Scope string_scope.

(* ================================================================== *)
(** ** Python string primitives *)
(* ================================================================== *)

Module Text.

Definition code (c : ascii) : N := N_of_ascii c.

Definition between (lo hi : N) (c : ascii) : bool :=
  (lo <=? code c)%N && (code c <=? hi)%N.

(** [str.isspace] on one character: TAB..CR, FS..US and the space. *)
Definition isspace (c : ascii) : bool := between 9 13 c || between 28 32 c.

(** [\d] *)
Definition isdigit (c : ascii) : bool := between 48 57 c.

(** [[A-Z]] and [[a-z]] *)
Definition isupper (c : ascii) : bool := between 65 90 c.
Definition islower (c : ascii) : bool := between 97 122 c.

Definition lower_char (c : ascii) : ascii :=
  if isupper c then ascii_of_N (code c + 32) else c.
Definition upper_char (c : ascii) : ascii :=
  if islower c then ascii_of_N (code c - 32) else c.

Fixpoint map_chars (f : ascii -> ascii) (s : string) : string :=
  match s with
  | "" => ""
  | String c r => String (f c) (map_chars f r)
  end.

(** [s.lower()] and [s.upper()] *)
Definition lower : string -> string := map_chars lower_char.
Definition upper : string -> string := map_chars upper_char.

(** every character of [s] satisfies [p] *)
Fixpoint all_chars (p : ascii -> bool) (s : string) : bool :=
  match s with
  | "" => true
  | String c r => p c && all_chars p r
  end.

(** [s.startswith(p)] *)
Definition startswith (p s : string) : bool := prefix p s.

(** [sub in s] *)
Fixpoint contains (sub s : string) : bool :=
  prefix sub s ||
  match s with
  | "" => false
  | String _ r => contains sub r
  end.

(** [s.lstrip()], [s.rstrip()], [s.strip()] *)
Fixpoint lstrip (s : string) : string :=
  match s with
  | "" => ""
  | String c r => if isspace c then lstrip r else s
  end.

Fixpoint rstrip (s : string) : string :=
  match s with
  | "" => ""
  | String c r =>
      match rstrip r with
      | "" => if isspace c then "" else String c ""
      | r' => String c r'
      end
  end.

Definition strip (s : string) : string := rstrip (lstrip s).

(** [s.endswith(c)] for a one-character suffix *)
Fixpoint endswith_char (c : ascii) (s : string) : bool :=
  match s with
  | "" => false
  | String x "" => Ascii.eqb x c
  | String _ r => endswith_char c r
  end.

(** [s.endswith(suffix)] *)
Fixpoint endswith (suffix s : string) : bool :=
  String.eqb suffix s ||
  match s with
  | "" => false
  | String _ r => endswith suffix r
  end.

(** [s.replace(old, new)]: the occurrences of [old] are taken from the left
    and do not overlap.  [skip] counts the characters of an occurrence that
    remain to be dropped. *)
Fixpoint replace_from (old new s : string) (skip : nat) : string :=
  match s with
  | "" => ""
  | String c r =>
      match skip with
      | S k => replace_from old new r k
      | O =>
          if prefix old s
          then new ++ replace_from old new r (String.length old - 1)
          else String c (replace_from old new r 0)
      end
  end.

(** with an empty [old], Python puts [new] around every character *)
Fixpoint replace_empty (new s : string) : string :=
  match s with
  | "" => new
  | String c r => new ++ String c (replace_empty new r)
  end.

Definition replace (old new s : string) : string :=
  match old with
  | "" => replace_empty new s
  | _ => replace_from old new s 0
  end.

(** [s.rsplit(c, 1)] when [c] occurs in [s]: the text before and after the
    last [c]; [None] when [c] does not occur (Python then returns [[s]]). *)
Fixpoint rsplit1 (c : ascii) (s : string) : option (string * string) :=
  match s with
  | "" => None
  | String x r =>
      match rsplit1 c r with
      | Some (a, b) => Some (String x a, b)
      | None => if Ascii.eqb x c then Some ("", r) else None
      end
  end.

Definition newline : ascii := "010"%char.

(** [s.split('\n')] *)
Fixpoint split_lines (s : string) : list string :=
  match s with
  | "" => [""]
  | String c r =>
      if Ascii.eqb c newline then "" :: split_lines r
      else match split_lines r with
           | h :: t => String c h :: t
           | [] => [String c ""]
           end
  end.

(** ['\n'.join(ls)] *)
Fixpoint join_lines (ls : list string) : string :=
  match ls with
  | [] => ""
  | [l] => l
  | l :: rest => l ++ String newline (join_lines rest)
  end.

(** [s[1:]] *)
Definition tail (s : string) : string :=
  match s with
  | "" => ""
  | String _ r => r
  end.

(** the first [n] characters *)
Fixpoint take (n : nat) (s : string) : string :=
  match n, s with
  | S k, String c r => String c (take k r)
  | _, _ => ""
  end.

End Text.

(* ================================================================== *)
(** ** A backtracking matcher for the patterns handed to [re] *)
(* ================================================================== *)

Module Re.
Import Text.

(** The fragment of Python's pattern language the script uses: literals
    (optionally under [re.IGNORECASE]), character classes, bounded and
    unbounded repetition of a class (greedy [{lo,hi}] or lazy [+?]),
    alternation, sequence, numbered groups and [$]. *)
Inductive regex : Type :=
| Eps
| Lit (icase : bool) (s : string)
| Cls (p : ascii -> bool)
| Rep (greedy : bool) (p : ascii -> bool) (lo : nat) (hi : option nat)
| Alt (r1 r2 : regex)
| Seq (r1 r2 : regex)
| Grp (n : nat) (r : regex)
| Eos.

Declare Scope re_scope.
Delimit Scope re_scope with re.
Infix ";;" := Seq (at level 61, right associativity) : re_scope.
Infix "<|>" := Alt (at level 62, right associativity) : re_scope.

(** the groups captured so far, latest first *)
Definition captures : Type := list (nat * string).

Fixpoint group (n : nat) (caps : captures) : option string :=
  match caps with
  | [] => None
  | (m, s) :: rest => if Nat.eqb m n then Some s else group n rest
  end.

(** outcome of a match attempt: the unread text and the groups *)
Definition outcome : Type := option (string * captures).
Definition cont : Type := captures -> string -> outcome.

Definition char_eq (icase : bool) (a b : ascii) : bool :=
  if icase then Ascii.eqb (lower_char a) (lower_char b) else Ascii.eqb a b.

(** read the literal [lit] off the front of [s] *)
Fixpoint eat (icase : bool) (lit s : string) : option string :=
  match lit, s with
  | "", _ => Some s
  | String a lit', String b s' => if char_eq icase a b then eat icase lit' s' else None
  | String _ _, "" => None
  end.

Definition may_take (hi : option nat) : bool :=
  match hi with Some O => false | _ => true end.
Definition one_less (hi : option nat) : option nat :=
  match hi with Some n => Some (pred n) | None => None end.

(** greedy repetition: take a character when allowed, fall back to stopping *)
Fixpoint rep_greedy (p : ascii -> bool) (lo : nat) (hi : option nat)
         (s : string) (k : string -> outcome) : outcome :=
  let stop := if Nat.eqb lo 0 then k s else None in
  match s with
  | String c r =>
      if p c && may_take hi then
        match rep_greedy p (pred lo) (one_less hi) r k with
        | Some o => Some o
        | None => stop
        end
      else stop
  | "" => stop
  end.

(** lazy repetition: stop when allowed, fall back to taking a character *)
Fixpoint rep_lazy (p : ascii -> bool) (lo : nat) (hi : option nat)
         (s : string) (k : string -> outcome) : outcome :=
  let more :=
    match s with
    | String c r =>
        if p c && may_take hi then rep_lazy p (pred lo) (one_less hi) r k else None
    | "" => None
    end in
  if Nat.eqb lo 0 then
    match k s with
    | Some o => Some o
    | None => more
    end
  else more.

(** [$]: the end of the text, or just before a final newline *)
Definition at_end (s : string) : bool :=
  match s with
  | "" => true
  | String c "" => Ascii.eqb c newline
  | _ => false
  end.

Fixpoint exec (r : regex) (s : string) (caps : captures) (k : cont) : outcome :=
  match r with
  | Eps => k caps s
  | Lit icase lit =>
      match eat icase lit s with
      | Some rest => k caps rest
      | None => None
      end
  | Cls p =>
      match s with
      | String c rest => if p c then k caps rest else None
      | "" => None
      end
  | Rep true p lo hi => rep_greedy p lo hi s (k caps)
  | Rep false p lo hi => rep_lazy p lo hi s (k caps)
  | Alt r1 r2 =>
      match exec r1 s caps k with
      | Some o => Some o
      | None => exec r2 s caps k
      end
  | Seq r1 r2 => exec r1 s caps (fun caps' s' => exec r2 s' caps' k)
  | Grp n r1 =>
      exec r1 s caps
           (fun caps' s' =>
              k ((n, take (String.length s - String.length s') s) :: caps') s')
  | Eos => if at_end s then k caps s else None
  end.

(** [re.match]: a match anchored at the start of [s] *)
Definition match_at (r : regex) (s : string) : outcome :=
  exec r s [] (fun caps rest => Some (rest, caps)).

(** the result of [re.search] *)
Record found : Type := Found {
  before : string;     (* text to the left of the match *)
  matched : string;    (* group 0 *)
  after : string;      (* text to the right of the match *)
  groups : captures
}.

Definition found_at (pre s : string) (o : string * captures) : found :=
  Found pre (take (String.length s - String.length (fst o)) s) (fst o) (snd o).

(** the leftmost match; [pre] is the text already passed *)
Fixpoint search_from (r : regex) (pre s : string) : option found :=
  match match_at r s with
  | Some o => Some (found_at pre s o)
  | None =>
      match s with
      | "" => None
      | String c rest => search_from r (pre ++ String c "") rest
      end
  end.

(** [re.search(r, s)] *)
Definition search (r : regex) (s : string) : option found := search_from r "" s.

(** [re.sub(r, '', s)] for a pattern that matches no empty text, as is the
    one pattern the script substitutes: every match, taken from the left,
    is dropped.  [skip] counts the matched characters still to drop. *)
Fixpoint sub_from (r : regex) (s : string) (skip : nat) : string :=
  match s with
  | "" => ""
  | String c rest =>
      match skip with
      | S n => sub_from r rest n
      | O =>
          match match_at r s with
          | Some (rest', _) =>
              match String.length s - String.length rest' with
              | O => String c (sub_from r rest 0)
              | S n => sub_from r rest n
              end
          | None => String c (sub_from r rest 0)
          end
      end
  end.

Definition sub_remove (r : regex) (s : string) : string := sub_from r s 0.

End Re.

(* ================================================================== *)
(** ** Civil dates, [strptime] and the two families of time zones *)
(* ================================================================== *)

Module Clock.
Import Text Re.
#[local] Open Scope Z_scope.

(** a naive [datetime] *)
Record datetime : Type := mkdt {
  year : Z; month : Z; day : Z; hour : Z; minute : Z; second : Z
}.

(** [dt.date()] *)
Definition date_of (dt : datetime) : Z * Z * Z := (year dt, month dt, day dt).

Definition same_day (a b : datetime) : bool :=
  (year a =? year b) && (month a =? month b) && (day a =? day b).

Definition is_leap (y : Z) : bool :=
  (y mod 4 =? 0) && (negb (y mod 100 =? 0) || (y mod 400 =? 0)).

Definition days_in_month (y m : Z) : Z :=
  if m =? 2 then (if is_leap y then 29 else 28)
  else if (m =? 4) || (m =? 6) || (m =? 9) || (m =? 11) then 30
  else 31.

(** the dates [datetime] accepts (MINYEAR = 1, MAXYEAR = 9999) *)
Definition valid_date (y m d : Z) : bool :=
  (1 <=? y) && (y <=? 9999) && (1 <=? m) && (m <=? 12) &&
  (1 <=? d) && (d <=? days_in_month y m).

(** days since 1970-01-01 in the proleptic Gregorian calendar *)
Definition days_from_civil (y m d : Z) : Z :=
  let y' := if m <=? 2 then y - 1 else y in
  let era := y' / 400 in
  let yoe := y' - era * 400 in
  let mp := if m <=? 2 then m + 9 else m - 3 in
  let doy := (153 * mp + 2) / 5 + d - 1 in
  let doe := yoe * 365 + yoe / 4 - yoe / 100 + doy in
  era * 146097 + doe - 719468.

Definition civil_from_days (z : Z) : Z * Z * Z :=
  let z' := z + 719468 in
  let era := z' / 146097 in
  let doe := z' - era * 146097 in
  let yoe := (doe - doe / 1460 + doe / 36524 - doe / 146096) / 365 in
  let doy := doe - (365 * yoe + yoe / 4 - yoe / 100) in
  let mp := (5 * doy + 2) / 153 in
  let d := doy - (153 * mp + 2) / 5 + 1 in
  let m := if mp <? 10 then mp + 3 else mp - 9 in
  let y := yoe + era * 400 in
  ((if m <=? 2 then y + 1 else y), m, d).

(** 0 = Sunday .. 6 = Saturday *)
Definition weekday (days : Z) : Z := (days + 4) mod 7.

(** seconds since the epoch of a civil time read as UTC, and back *)
Definition timestamp (dt : datetime) : Z :=
  days_from_civil (year dt) (month dt) (day dt) * 86400
  + hour dt * 3600 + minute dt * 60 + second dt.

Definition of_timestamp (t : Z) : datetime :=
  let days := t / 86400 in
  let secs := t mod 86400 in
  let '(y, m, d) := civil_from_days days in
  mkdt y m d (secs / 3600) ((secs mod 3600) / 60) (secs mod 60).

(** *** [datetime.strptime] *)

Inductive directive : Type :=
| D_b                  (* %b *)
| D_d                  (* %d *)
| D_m                  (* %m *)
| D_Y                  (* %Y *)
| D_ws                 (* white space in the format *)
| D_lit (s : string).  (* any other text *)

Definition month_abbrs : list string :=
  ["jan"; "feb"; "mar"; "apr"; "may"; "jun";
   "jul"; "aug"; "sep"; "oct"; "nov"; "dec"].

Definition any_of (ls : list string) : regex :=
  fold_right (fun s r => Alt (Lit true s) r) (Cls (fun _ => false)) ls.

Definition grp_Y : nat := 1%nat.
Definition grp_m : nat := 2%nat.
Definition grp_b : nat := 3%nat.
Definition grp_d : nat := 4%nat.

(** the pattern [_strptime] compiles for each directive *)
Definition directive_re (d : directive) : regex :=
  (match d with
   | D_b => Grp grp_b (any_of month_abbrs)
   | D_d => Grp grp_d ((Lit true "3" ;; Cls (between 48 49))
                       <|> (Cls (between 49 50) ;; Cls isdigit)
                       <|> (Lit true "0" ;; Cls (between 49 57))
                       <|> Cls (between 49 57)
                       <|> (Lit true " " ;; Cls (between 49 57)))
   | D_m => Grp grp_m ((Lit true "1" ;; Cls (between 48 50))
                       <|> (Lit true "0" ;; Cls (between 49 57))
                       <|> Cls (between 49 57))
   | D_Y => Grp grp_Y (Rep true isdigit 4 (Some 4%nat))
   | D_ws => Rep true isspace 1 None
   | D_lit s => Lit true s
   end)%re.

Definition format_re (fmt : list directive) : regex :=
  fold_right (fun d r => Seq (directive_re d) r) Eps fmt.

(** [int(s)] on a run of digits, blanks around it ignored *)
Fixpoint int_digits (acc : Z) (s : string) : Z :=
  match s with
  | "" => acc
  | String c r =>
      if isdigit c then int_digits (10 * acc + Z.of_N (code c) - 48) r
      else int_digits acc r
  end.
Definition int (s : string) : Z := int_digits 0 s.

(** position (from 1) of [s] in [ls], 0 when absent *)
Fixpoint index_from (i : Z) (s : string) (ls : list string) : Z :=
  match ls with
  | [] => 0
  | x :: rest => if String.eqb x s then i else index_from (i + 1) s rest
  end.

(** [datetime.strptime(data, fmt)]; [None] stands for [ValueError].
    Fields a format does not name keep [strptime]'s defaults. *)
Definition strptime (data : string) (fmt : list directive) : option datetime :=
  match match_at (format_re fmt) data with
  | Some ("", caps) =>
      let y := match group grp_Y caps with Some s => int s | None => 1900 end in
      let m := match group grp_b caps with
               | Some s => index_from 1 (lower s) month_abbrs
               | None => match group grp_m caps with Some s => int s | None => 1 end
               end in
      let d := match group grp_d caps with Some s => int s | None => 1 end in
      if valid_date y m d then Some (mkdt y m d 0 0 0) else None
  | _ => None
  end.

(** *** [zoneinfo]

    A zone gives the offset (seconds east of UTC) of a wall-clock reading
    (as [utcoffset] does for [fold=0]) and of an instant (as [fromutc]
    does).  The zones the script names follow two rule sets, modelled as in
    force since 2007: central European time and United States eastern
    time.  Arithmetic is on unbounded integers: the [OverflowError] of a
    conversion that leaves the years 1..9999 is not modelled. *)

Record tzinfo : Type := mktz {
  utcoffset : datetime -> Z;
  offset_at : Z -> Z
}.

Definition at_utc (y m d h : Z) : Z := timestamp (mkdt y m d h 0 0).

Definition last_sunday (y m : Z) : Z :=
  31 - weekday (days_from_civil y m 31).
Definition first_sunday (y m : Z) : Z :=
  1 + (7 - weekday (days_from_civil y m 1)) mod 7.

Definition year_of (t : Z) : Z := year (of_timestamp t).

(** summer time between the transitions [start] and [stop] (instants) *)
Definition zone (std dst : Z) (start stop : Z -> Z) : tzinfo :=
  mktz
    (fun wall =>
       let w := timestamp wall in
       let y := year wall in
       if (start y + Z.max std dst <=? w) && (w <? stop y + Z.max std dst)
       then dst else std)
    (fun t =>
       let y := year_of t in
       if (start y <=? t) && (t <? stop y) then dst else std).

(** CET/CEST: last Sunday of March to last Sunday of October, 01:00 UTC *)
Definition central_european : tzinfo :=
  zone 3600 7200
       (fun y => at_utc y 3 (last_sunday y 3) 1)
       (fun y => at_utc y 10 (last_sunday y 10) 1).

(** EST/EDT: second Sunday of March 07:00 UTC to first Sunday of
    November 06:00 UTC *)
Definition us_eastern : tzinfo :=
  zone (-18000) (-14400)
       (fun y => at_utc y 3 (first_sunday y 3 + 7) 7)
       (fun y => at_utc y 11 (first_sunday y 11) 6).

(** [ZoneInfo(key)]; [None] stands for [ZoneInfoNotFoundError] *)
Definition ZoneInfo (key : string) : option tzinfo :=
  if String.eqb key "Europe/Paris" then Some central_european
  else if String.eqb key "Europe/Madrid" then Some central_european
  else if String.eqb key "America/New_York" then Some us_eastern
  else None.

(** [dt.replace(tzinfo=src).astimezone(dst)], as a wall-clock reading *)
Definition astimezone (dt : datetime) (src dst : tzinfo) : datetime :=
  let utc := timestamp dt - utcoffset src dt in
  of_timestamp (utc + offset_at dst utc).

(** *** [strftime] pieces *)

Definition digit_char (d : Z) : ascii :=
  nth (Z.to_nat (d mod 10))
      ["0"; "1"; "2"; "3"; "4"; "5"; "6"; "7"; "8"; "9"]%char "0"%char.

(** two digits, zero padded *)
Definition two_digits (n : Z) : string :=
  String (digit_char (n / 10)) (String (digit_char n) "").

(** %I *)
Definition hour12 (h : Z) : Z := (h + 11) mod 12 + 1.
(** %p *)
Definition am_pm (h : Z) : string := if h <? 12 then "AM" else "PM".

End Clock.

(* ================================================================== *)
(** ** The string-similarity library *)
(* ================================================================== *)

(** What the script asks of [fuzzywuzzy.fuzz]: two scores. *)
Class FuzzLib : Type := {
  ratio : string -> string -> Z;
  partial_ratio : string -> string -> Z
}.

(** A reference scorer, used to run the engine on concrete inputs: the
    ratio 2*M/T of the indel distance (M the length of a longest common
    subsequence, T the total length) as a rounded percentage, and for the
    partial score the best ratio of the shorter text against a window of the
    longer one. *)
Module RefFuzz.
Import Text.

(** one row of the table of longest-common-subsequence lengths: [up] runs
    over the row above, [diag] and [left] are the entries above-left and
    left of the one being filled *)
Fixpoint lcs_row (x : ascii) (b : string) (up : list nat) (diag left : nat)
  : list nat :=
  match b, up with
  | String y b', u :: up' =>
      let v := if Ascii.eqb x y then S diag else Nat.max u left in
      v :: lcs_row x b' up' u v
  | _, _ => []
  end.

Fixpoint lcs_rows (a b : string) (row : list nat) : list nat :=
  match a with
  | "" => row
  | String x a' => lcs_rows a' b (lcs_row x b row O O)
  end.

(** length of a longest common subsequence *)
Definition lcs (a b : string) : nat :=
  last (lcs_rows a b (repeat O (String.length b))) O.

(** [int(round(100 * n / d))], ties to the even neighbour *)
Definition percent (n d : Z) : Z :=
  let q := ((100 * n) / d)%Z in
  let r := ((100 * n) mod d)%Z in
  if (2 * r <? d)%Z then q
  else if (d <? 2 * r)%Z then (q + 1)%Z
  else if Z.even q then q else (q + 1)%Z.

Definition ref_ratio (a b : string) : Z :=
  if String.eqb a b then 100%Z
  else if (Nat.eqb (String.length a) 0 || Nat.eqb (String.length b) 0)%bool then 0%Z
  else percent (2 * Z.of_nat (lcs a b))
               (Z.of_nat (String.length a + String.length b)).

(** the best score of [s] against the windows of [l] of length [n] *)
Fixpoint best_window (s l : string) (n : nat) : Z :=
  match l with
  | "" => 0%Z
  | String _ l' =>
      if Nat.ltb (String.length l) n then 0%Z
      else Z.max (ref_ratio s (take n l)) (best_window s l' n)
  end.

Definition ref_partial_ratio (a b : string) : Z :=
  if String.eqb a b then 100%Z
  else if (Nat.eqb (String.length a) 0 || Nat.eqb (String.length b) 0)%bool then 0%Z
  else if Nat.leb (String.length a) (String.length b)
       then best_window a b (String.length a)
       else best_window b a (String.length b).

#[export] Instance ref_fuzz : FuzzLib :=
  {| ratio := ref_ratio; partial_ratio := ref_partial_ratio |}.

End RefFuzz.

(* ================================================================== *)
(** ** The script *)
(* ================================================================== *)

Import Text Re Clock.

(** [class Game] *)
Record Game : Type := mkGame {
  original_line : string;
  date : datetime;
  opponent : string;
  is_home : bool;          (* True for "vs", False for "@" *)
  league : string;
  existing_time : option string;
  line_number : Z
}.

(** [class OfficialGame] *)
Record OfficialGame : Type := mkOfficial {
  o_date : datetime;
  o_opponent : string;
  o_is_home : bool;
  local_time : datetime;
  o_league : string
}.

(** an entry of [TEAM_CONFIG], with the keys the engine reads *)
Record Config : Type := mkConfig {
  team_name : string;
  timezone : string;
  leagues : list string
}.

Definition TEAM_CONFIG : list (string * Config) :=
  [ ("adam_atamna_schedule.txt",
     mkConfig "ASVEL" "Europe/Paris" ["EuroLeague"; "LNB Pro A"]);
    ("mouhamed_faye_schedule.txt",
     mkConfig "Paris Basketball" "Europe/Paris" ["EuroLeague"; "LNB Pro A"]);
    ("sergio_de_larrea_schedule.txt",
     mkConfig "Valencia Basket" "Europe/Madrid" ["EuroLeague"; "Liga ACB"]);
    ("michael_ruzic_schedule.txt",
     mkConfig "Joventut Badalona" "Europe/Madrid" ["EuroCup"; "Liga ACB"]) ].

(** [ET_TIMEZONE = ZoneInfo('America/New_York')] *)
Definition ET_TIMEZONE : tzinfo := us_eastern.

(** the first success of [f] over [ls] *)
Fixpoint first_some {A B : Type} (f : A -> option B) (ls : list A) : option B :=
  match ls with
  | [] => None
  | x :: rest => match f x with Some y => Some y | None => first_some f rest end
  end.

(** [parse_date]: '%b %d, %Y', '%Y-%m-%d', '%d %b %Y' *)
Definition date_formats : list (list directive) :=
  [ [D_b; D_ws; D_d; D_lit ","; D_ws; D_Y];
    [D_Y; D_lit "-"; D_m; D_lit "-"; D_d];
    [D_d; D_ws; D_b; D_ws; D_Y] ].

Definition parse_date (date_str : string) : option datetime :=
  first_some (strptime (strip date_str)) date_formats.

Definition not_at (c : ascii) : bool := negb (Ascii.eqb c "@").

(** r'([A-Z][a-z]{2}\s+\d{1,2},\s+\d{4})' *)
Definition date_re : regex :=
  (Grp 1 (Cls isupper ;; Rep true islower 2 (Some 2%nat) ;; Rep true isspace 1 None ;;
          Rep true isdigit 1 (Some 2%nat) ;; Lit false "," ;; Rep true isspace 1 None ;;
          Rep true isdigit 4 (Some 4%nat)))%re.

(** r'vs\s+([^@]+?)(?:@|,|$)' *)
Definition home_opp_re : regex :=
  (Lit false "vs" ;; Rep true isspace 1 None ;; Grp 1 (Rep false not_at 1 None) ;;
   (Lit false "@" <|> Lit false "," <|> Eos))%re.

(** r'@\s+([^@]+?)(?:@|,|$)' *)
Definition away_opp_re : regex :=
  (Lit false "@" ;; Rep true isspace 1 None ;; Grp 1 (Rep false not_at 1 None) ;;
   (Lit false "@" <|> Lit false "," <|> Eos))%re.

(** r'\d{1,2}:\d{2}\s*(?:AM|PM)?\s*ET' under re.IGNORECASE *)
Definition clock_re : regex :=
  (Rep true isdigit 1 (Some 2%nat) ;; Lit true ":" ;; Rep true isdigit 2 (Some 2%nat) ;;
   Rep true isspace 0 None ;; ((Lit true "AM" <|> Lit true "PM") <|> Eps) ;;
   Rep true isspace 0 None ;; Lit true "ET")%re.

(** r'(\d{1,2}:\d{2}\s*(?:AM|PM)?\s*ET)' *)
Definition existing_time_re : regex := Grp 1 clock_re.

(** r',\s*\d{1,2}:\d{2}\s*(?:AM|PM)?\s*ET' *)
Definition time_suffix_re : regex :=
  (Lit true "," ;; Rep true isspace 0 None ;; clock_re)%re.

(** the text of group 1 of a match *)
Definition group1 (m : found) : string :=
  match group 1 (groups m) with Some s => s | None => "" end.

(** the two marker tests of [extract_game_info], on the stripped line *)
Definition home_marker (line : string) : bool :=
  contains "vs " line || contains " vs " line.
Definition away_marker (line : string) : bool :=
  contains "@ " line && negb (startswith "@" (strip line)).

(** the lines [extract_game_info] turns away at once *)
Definition not_a_fixture (line : string) : bool :=
  String.eqb line "" || startswith "#" line
  || contains "(W " line || contains "(L " line.

Definition extract_game_info (line league : string) : option Game :=
  let line := strip line in
  if not_a_fixture line then None else
  match search date_re line with
  | None => None
  | Some date_match =>
      match parse_date (group1 date_match) with
      | None => None
      | Some date =>
          let is_home := home_marker line in
          let is_away := away_marker line in
          if negb (is_home || is_away) then None else
          match (if is_home then search home_opp_re line
                 else search away_opp_re line) with
          | None => None
          | Some opp_match =>
              let opponent := strip (group1 opp_match) in
              let existing_time :=
                match search existing_time_re line with
                | Some time_match => Some (group1 time_match)
                | None => None
                end in
              Some (mkGame line date opponent is_home league existing_time 0)
          end
      end
  end.

Definition normalize_team_name (name : string) : string :=
  let name := replace " Beko" "" (replace " Basketball" "" (replace " Basket" "" name)) in
  let name := replace " Basket" "" (replace " SAD" "" (replace " FOX" "" name)) in
  let name := replace " AX" "" (replace " AX Armani Exchange" " Armani" name) in
  let name := replace " CB " "" (replace " KK " "" name) in
  let name := strip name in
  lower name.

(** [ZoneInfo] hands out one object per key, and [astimezone] returns the
    reading as it is when asked for the zone it already has *)
Definition convert_to_et (local_time : datetime) (local_tz : string) : option datetime :=
  match ZoneInfo local_tz with
  | Some local_zone =>
      if String.eqb local_tz "America/New_York" then Some local_time
      else Some (astimezone local_time local_zone ET_TIMEZONE)
  | None => None
  end.

(** [dt.strftime('%I:%M %p ET')] *)
Definition strftime_I_M_p_ET (dt : datetime) : string :=
  two_digits (hour12 (hour dt)) ++ ":" ++ two_digits (minute dt)
  ++ " " ++ am_pm (hour dt) ++ " ET".

Definition format_time_et (dt : datetime) : string :=
  let time_str := strftime_I_M_p_ET dt in
  if startswith "0" time_str then tail time_str else time_str.

Definition update_line_with_time (original_line new_time : string) : string :=
  let line := sub_remove time_suffix_re original_line in
  if contains "@" line && negb (endswith_char "@" (rstrip line)) then
    match rsplit1 "@" line with
    | Some (part0, part1) => part0 ++ ", " ++ new_time ++ " @" ++ part1
    | None => line ++ ", " ++ new_time
    end
  else line ++ ", " ++ new_time.

Section Engine.
Context {fuzz : FuzzLib}.

Definition fuzzy_match_teams (name1 name2 : string) (threshold : Z) : bool :=
  let norm1 := normalize_team_name name1 in
  let norm2 := normalize_team_name name2 in
  if String.eqb norm1 norm2 then true
  else (threshold <=? ratio norm1 norm2)%Z || (85 <=? partial_ratio norm1 norm2)%Z.

(** the default of the [threshold] argument *)
Definition default_threshold : Z := 80.

(** one turn of the loop of [match_game] over (best_match, best_score) *)
Definition match_step (game : Game) (best : option OfficialGame * Z)
           (official : OfficialGame) : option OfficialGame * Z :=
  if negb (same_day (date game) (o_date official)) then best
  else if negb (String.eqb (league game) (o_league official)) then best
  else if negb (Bool.eqb (is_home game) (o_is_home official)) then best
  else if fuzzy_match_teams (opponent game) (o_opponent official) default_threshold then
    let score := ratio (normalize_team_name (opponent game))
                       (normalize_team_name (o_opponent official)) in
    if (snd best <? score)%Z then (Some official, score) else best
  else best.

Definition match_game (game : Game) (official_games : list OfficialGame)
  : option OfficialGame :=
  let '(best_match, best_score) :=
    fold_left (match_step game) official_games (None, 0%Z) in
  if (75 <=? best_score)%Z then best_match else None.

(** state of the loop of [process_schedule_file] *)
Record Scan : Type := mkScan {
  updated_lines : list string;
  updated_count : nat;
  skipped_count : nat;
  unmatched_games : list Game;
  current_league : option string
}.

Definition initial_scan : Scan := mkScan [] 0 0 [] None.

(** [league.upper() in line.upper()] *)
Definition names_league (line league : string) : bool :=
  contains (upper league) (upper line).

(** the league a header line switches to, if any *)
Definition detect_league (config : Config) (current : option string)
           (line : string) : option string :=
  match find (names_league line) (leagues config) with
  | Some lg => Some lg
  | None => current
  end.

(** blank lines, the team's Rank:/Source: lines, completed games *)
Definition skip_line (config : Config) (line : string) : bool :=
  String.eqb (strip line) ""
  || (contains (team_name config) line
      && (contains "Rank:" line || contains "Source:" line))
  || contains "(W " line
  || contains "(L " line.

Definition pass_through (st : Scan) (cur : option string) (line : string) : Scan :=
  mkScan (updated_lines st ++ [line]) (updated_count st) (skipped_count st)
         (unmatched_games st) cur.

(** the body of the loop; [None] when a call raises *)
Definition process_line (config : Config) (official_games : list OfficialGame)
           (st : Scan) (line : string) : option Scan :=
  let cur := detect_league config (current_league st) line in
  if skip_line config line then Some (pass_through st cur line) else
  match cur with
  | Some lg =>
      if String.eqb lg "" then Some (pass_through st cur line) else
      match extract_game_info line lg with
      | Some game =>
          match match_game game official_games with
          | Some found_game =>
              match convert_to_et (local_time found_game) (timezone config) with
              | Some et_time =>
                  let time_str := format_time_et et_time in
                  let updated_line := update_line_with_time line time_str in
                  Some (mkScan (updated_lines st ++ [updated_line])
                               (S (updated_count st)) (skipped_count st)
                               (unmatched_games st) cur)
              | None => None
              end
          | None =>
              Some (mkScan (updated_lines st ++ [line])
                           (updated_count st) (S (skipped_count st))
                           (unmatched_games st ++ [game]) cur)
          end
      | None => Some (pass_through st cur line)
      end
  | None => Some (pass_through st cur line)
  end.

Fixpoint scan_lines (config : Config) (official_games : list OfficialGame)
         (st : Scan) (lines : list string) : option Scan :=
  match lines with
  | [] => Some st
  | line :: rest =>
      match process_line config official_games st line with
      | Some st' => scan_lines config official_games st' rest
      | None => None
      end
  end.

(** what a run leaves behind: the text of the file, the two counts it
    returns and the games it logs as unmatched *)
Record Report : Type := mkReport {
  file_text : string;
  updated : nat;
  skipped : nat;
  unmatched : list Game
}.

(** [process_schedule_file] on the text of the file and the official games
    fetched for the team; [None] when the run raises (nothing is written) *)
Definition process_schedule_file (config : Config)
           (official_games : list OfficialGame) (text : string) : option Report :=
  let lines := split_lines text in
  match official_games with
  | [] => Some (mkReport text 0 0 [])
  | _ =>
      match scan_lines config official_games initial_scan lines with
      | Some st =>
          Some (mkReport (join_lines (updated_lines st))
                         (updated_count st) (skipped_count st) (unmatched_games st))
      | None => None
      end
  end.

End Engine.

(* ================================================================== *)
(** ** Facts about the string primitives *)
(* ================================================================== *)

Module TextFacts.
Import Text.

Ltac each_char c := destruct c as [[] [] [] [] [] [] [] []].

Definition not_upper (c : ascii) : bool := negb (isupper c).

Lemma append_empty_r (s : string) : s ++ "" = s.
Proof. induction s as [|c s IH]; simpl; [reflexivity | now rewrite IH]. Qed.

Lemma append_assoc (a b c : string) : (a ++ b) ++ c = a ++ (b ++ c).
Proof. induction a as [|x a IH]; simpl; [reflexivity | now rewrite IH]. Qed.

Lemma all_chars_append p (a b : string) :
  all_chars p (a ++ b) = all_chars p a && all_chars p b.
Proof.
  induction a as [|x a IH]; simpl; [reflexivity|].
  now rewrite IH, andb_assoc.
Qed.

Lemma lower_char_not_upper (c : ascii) : not_upper (lower_char c) = true.
Proof. each_char c; reflexivity. Qed.

Lemma lower_char_space (c : ascii) : isspace (lower_char c) = isspace c.
Proof. each_char c; reflexivity. Qed.

Lemma lower_char_fixed (c : ascii) : not_upper c = true -> lower_char c = c.
Proof.
  unfold not_upper, lower_char. destruct (isupper c); [discriminate | reflexivity].
Qed.

Lemma lower_not_upper (s : string) : all_chars not_upper (lower s) = true.
Proof.
  unfold lower. induction s as [|c s IH]; simpl; [reflexivity|].
  now rewrite lower_char_not_upper, IH.
Qed.

Lemma lower_fixed (s : string) : all_chars not_upper s = true -> lower s = s.
Proof.
  unfold lower. induction s as [|c s IH]; simpl; [reflexivity|].
  intros H. apply andb_prop in H as [Hc Hs].
  now rewrite (lower_char_fixed c Hc), IH.
Qed.

(** a text holding an upper-case letter is no prefix of a text without *)
Lemma prefix_needs_upper (old s : string) :
  all_chars not_upper old = false -> all_chars not_upper s = true ->
  prefix old s = false.
Proof.
  revert s. induction old as [|a old IH]; intros s Hold Hs; [discriminate|].
  destruct s as [|b s]; [reflexivity|]. simpl in *.
  apply andb_prop in Hs as [Hb Hs].
  destruct (ascii_dec a b) as [->|_]; [|reflexivity].
  rewrite Hb in Hold. simpl in Hold. now apply IH.
Qed.

Lemma replace_from_absent (old new s : string) :
  all_chars not_upper old = false -> all_chars not_upper s = true ->
  replace_from old new s 0 = s.
Proof.
  intros Hold. induction s as [|c s IH]; intros Hs; [reflexivity|].
  cbn [replace_from]. rewrite (prefix_needs_upper old _ Hold Hs).
  simpl in Hs. apply andb_prop in Hs as [_ Hs]. now rewrite IH.
Qed.

Lemma replace_absent (old new s : string) :
  all_chars not_upper old = false -> all_chars not_upper s = true ->
  replace old new s = s.
Proof.
  intros Hold Hs. destruct old as [|a old]; [discriminate|].
  unfold replace. now apply replace_from_absent.
Qed.

Lemma lstrip_lower (s : string) : lstrip (lower s) = lower (lstrip s).
Proof.
  induction s as [|c s IH]; [reflexivity|].
  cbn [lower map_chars lstrip]. rewrite lower_char_space.
  destruct (isspace c); [exact IH | reflexivity].
Qed.

Lemma lower_empty (s : string) : lower s = "" -> s = "".
Proof. destruct s; [reflexivity | discriminate]. Qed.

Lemma rstrip_lower (s : string) : rstrip (lower s) = lower (rstrip s).
Proof.
  induction s as [|c s IH]; [reflexivity|].
  cbn [lower map_chars rstrip]. fold (lower s). rewrite IH.
  destruct (rstrip s) as [|x r] eqn:E; cbn [lower map_chars].
  - rewrite lower_char_space. now destruct (isspace c).
  - reflexivity.
Qed.

Lemma rstrip_idem (s : string) : rstrip (rstrip s) = rstrip s.
Proof.
  induction s as [|c s IH]; [reflexivity|].
  cbn [rstrip]. destruct (rstrip s) as [|x r] eqn:E.
  - destruct (isspace c) eqn:Ec; [reflexivity|]. cbn. now rewrite Ec.
  - cbn [rstrip]. cbn [rstrip] in IH. rewrite IH. reflexivity.
Qed.

(** a stripped text is empty or starts and ends with a visible character *)
Definition starts_visible (s : string) : bool :=
  match s with "" => true | String c _ => negb (isspace c) end.

Fixpoint ends_visible (s : string) : bool :=
  match s with
  | "" => true
  | String c "" => negb (isspace c)
  | String _ r => ends_visible r
  end.

Lemma lstrip_starts_visible (s : string) : starts_visible (lstrip s) = true.
Proof.
  induction s as [|c s IH]; [reflexivity|].
  cbn [lstrip]. destruct (isspace c) eqn:E; [exact IH | cbn; now rewrite E].
Qed.

Lemma lstrip_fixed (s : string) : starts_visible s = true -> lstrip s = s.
Proof.
  destruct s as [|c s]; [reflexivity|]. cbn.
  now destruct (isspace c).
Qed.

Lemma rstrip_starts_visible (s : string) :
  starts_visible s = true -> starts_visible (rstrip s) = true.
Proof.
  destruct s as [|c s]; [reflexivity|]. cbn [starts_visible rstrip]. intros H.
  destruct (rstrip s); [|exact H].
  destruct (isspace c) eqn:E; [reflexivity | cbn; now rewrite E].
Qed.

Lemma rstrip_ends_visible (s : string) : ends_visible (rstrip s) = true.
Proof.
  induction s as [|c s IH]; [reflexivity|].
  cbn [rstrip]. destruct (rstrip s) as [|x r] eqn:E.
  - destruct (isspace c) eqn:Ec; [reflexivity | cbn; now rewrite Ec].
  - exact IH.
Qed.

Lemma strip_idem (s : string) : strip (strip s) = strip s.
Proof.
  unfold strip.
  rewrite (lstrip_fixed (rstrip (lstrip s))).
  - apply rstrip_idem.
  - apply rstrip_starts_visible, lstrip_starts_visible.
Qed.

Lemma strip_lower (s : string) : strip (lower s) = lower (strip s).
Proof. unfold strip. now rewrite lstrip_lower, rstrip_lower. Qed.

Lemma strip_visible (s : string) :
  starts_visible (strip s) = true /\ ends_visible (strip s) = true.
Proof.
  unfold strip. split.
  - apply rstrip_starts_visible, lstrip_starts_visible.
  - apply rstrip_ends_visible.
Qed.

Lemma lower_visible (s : string) :
  starts_visible (lower s) = starts_visible s /\
  ends_visible (lower s) = ends_visible s.
Proof.
  split.
  - destruct s as [|c s]; [reflexivity|]. cbn. now rewrite lower_char_space.
  - induction s as [|c s IH]; [reflexivity|].
    destruct s as [|d s]; [cbn; now rewrite lower_char_space|].
    exact IH.
Qed.

(** two white-space characters in a row *)
Fixpoint space_run (s : string) : bool :=
  match s with
  | "" => false
  | String c r =>
      match r with
      | String d _ => (isspace c && isspace d) || space_run r
      | "" => false
      end
  end.

End TextFacts.

(* ================================================================== *)
(** ** Facts about the matcher *)
(* ================================================================== *)

Module ReFacts.
Import Text Re.

(** a continuation that never hands back more text than it was given *)
Definition consuming (k : cont) : Prop :=
  forall caps s o, k caps s = Some o -> String.length (fst o) <= String.length s.

Lemma eat_shorter (icase : bool) (lit : string) :
  forall s rest, eat icase lit s = Some rest -> String.length rest <= String.length s.
Proof.
  induction lit as [|a lit IH]; intros s rest; cbn [eat].
  - destruct s; intros H; injection H as <-; lia.
  - destruct s as [|b s]; [discriminate|].
    destruct (char_eq icase a b); [|discriminate].
    intros H. apply IH in H. cbn. lia.
Qed.

Lemma rep_greedy_shorter (p : ascii -> bool) (k : string -> outcome) :
  (forall s o, k s = Some o -> String.length (fst o) <= String.length s) ->
  forall s lo hi o,
    rep_greedy p lo hi s k = Some o -> String.length (fst o) <= String.length s.
Proof.
  intros Hk. induction s as [|c s IH]; intros lo hi o; cbn [rep_greedy].
  - destruct (Nat.eqb lo 0); [apply Hk | discriminate].
  - assert ((if Nat.eqb lo 0 then k (String c s) else None) = Some o ->
            String.length (fst o) <= String.length (String c s)) as Hstop.
    { destruct (Nat.eqb lo 0); [apply Hk | discriminate]. }
    destruct (p c && may_take hi); [|exact Hstop].
    destruct (rep_greedy p (pred lo) (one_less hi) s k) as [o'|] eqn:E; [|exact Hstop].
    intros H. injection H as <-. apply IH in E. cbn. lia.
Qed.

Lemma rep_lazy_shorter (p : ascii -> bool) (k : string -> outcome) :
  (forall s o, k s = Some o -> String.length (fst o) <= String.length s) ->
  forall s lo hi o,
    rep_lazy p lo hi s k = Some o -> String.length (fst o) <= String.length s.
Proof.
  intros Hk. induction s as [|c s IH]; intros lo hi o; cbn [rep_lazy].
  - destruct (Nat.eqb lo 0); [|discriminate].
    destruct (k "") eqn:E; [|discriminate].
    intros H. injection H as <-. now apply Hk.
  - assert ((if p c && may_take hi
             then rep_lazy p (pred lo) (one_less hi) s k else None) = Some o ->
            String.length (fst o) <= String.length (String c s)) as Hmore.
    { destruct (p c && may_take hi); [|discriminate].
      intros H. apply IH in H. cbn. lia. }
    destruct (Nat.eqb lo 0); [|exact Hmore].
    destruct (k (String c s)) eqn:E; [|exact Hmore].
    intros H. injection H as <-. now apply Hk.
Qed.

(** a match reads a prefix of the text: what is left is no longer *)
Lemma exec_consuming (r : regex) :
  forall k, consuming k -> consuming (fun caps s => exec r s caps k).
Proof.
  induction r as [|icase lit|p|greedy p lo hi|r1 IH1 r2 IH2|r1 IH1 r2 IH2|n r1 IH1|];
    intros k Hk caps s o; cbn [exec].
  - apply Hk.
  - destruct (eat icase lit s) as [rest|] eqn:E; [|discriminate].
    intros H. apply Hk in H. apply eat_shorter in E. lia.
  - destruct s as [|c rest]; [discriminate|].
    destruct (p c); [|discriminate].
    intros H. apply Hk in H. cbn. lia.
  - destruct greedy.
    + apply rep_greedy_shorter. intros s' o'. apply Hk.
    + apply rep_lazy_shorter. intros s' o'. apply Hk.
  - destruct (exec r1 s caps k) as [o'|] eqn:E.
    + intros H. injection H as <-. exact (IH1 k Hk caps s o' E).
    + apply (IH2 k Hk).
  - apply (IH1 (fun caps' s' => exec r2 s' caps' k)). apply IH2, Hk.
  - apply (IH1 (fun caps' s' =>
                  k ((n, take (String.length s - String.length s') s) :: caps') s')).
    intros caps' s' o'. apply Hk.
  - destruct (at_end s); [apply Hk | discriminate].
Qed.

Lemma match_at_shorter (r : regex) (s rest : string) (caps : captures) :
  match_at r s = Some (rest, caps) -> String.length rest <= String.length s.
Proof.
  unfold match_at. intros H.
  apply (exec_consuming r (fun caps rest => Some (rest, caps))) in H; [exact H|].
  intros caps' s' o' E. injection E as <-. cbn. lia.
Qed.

(** where the pattern matches nowhere, [re.sub] changes nothing *)
Lemma sub_remove_no_match (r : regex) (s : string) :
  search r s = None -> sub_remove r s = s.
Proof.
  unfold search, sub_remove. generalize "" as pre.
  induction s as [|c s IH]; intros pre; [reflexivity|].
  cbn [search_from sub_from].
  destruct (match_at r (String c s)); [discriminate|].
  intros H. now rewrite (IH _ H).
Qed.

End ReFacts.

(* ================================================================== *)
(** ** The name normaliser and the fuzzy matcher *)
(* ================================================================== *)

Import TextFacts.

Lemma normalize_lowercase (x : string) :
  all_chars not_upper (normalize_team_name x) = true.
Proof. unfold normalize_team_name. apply lower_not_upper. Qed.

(** on a text without upper-case letters none of the noise words occurs,
    so the replacements leave it alone *)
Lemma noise_words_absent (y : string) :
  all_chars not_upper y = true ->
  replace " CB " ""
    (replace " KK " ""
      (replace " AX" ""
        (replace " AX Armani Exchange" " Armani"
          (replace " Basket" ""
            (replace " SAD" ""
              (replace " FOX" ""
                (replace " Beko" ""
                  (replace " Basketball" ""
                    (replace " Basket" "" y))))))))) = y.
Proof.
  intros Hy.
  repeat match goal with
         | |- context [replace ?old ?new y] =>
             rewrite (replace_absent old new y) by first [exact Hy | reflexivity]
         end.
  reflexivity.
Qed.

(** C7. The name normaliser is idempotent: for every string [x],
    [normalize_team_name (normalize_team_name x) = normalize_team_name x]. *)
Theorem normalize_team_name_idempotent (x : string) :
  normalize_team_name (normalize_team_name x) = normalize_team_name x.
Proof.
  pose proof (normalize_lowercase x) as Hlow.
  set (y := normalize_team_name x) in *.
  unfold normalize_team_name at 1.
  rewrite (noise_words_absent y Hlow).
  unfold y, normalize_team_name at 1.
  rewrite strip_lower, strip_idem.
  apply lower_fixed, lower_not_upper.
Qed.

(** C8, as the code has it. The output of the name normaliser holds no
    upper-case letter and neither starts nor ends with white space; white
    space inside the name is kept as written. *)
Theorem normalize_team_name_lower_stripped (x : string) :
  all_chars not_upper (normalize_team_name x) = true
  /\ starts_visible (normalize_team_name x) = true
  /\ ends_visible (normalize_team_name x) = true
  /\ strip (normalize_team_name x) = normalize_team_name x.
Proof.
  split; [apply normalize_lowercase|].
  unfold normalize_team_name.
  match goal with |- context [lower (strip ?z)] => generalize z end.
  intros z.
  destruct (lower_visible (strip z)) as [Hs He].
  destruct (strip_visible z) as [Hs' He'].
  repeat split.
  - now rewrite Hs.
  - now rewrite He.
  - now rewrite strip_lower, strip_idem.
Qed.

(** C8 as stated fails: a run of two blanks inside a name survives. *)
Lemma normalize_team_name_keeps_space_run :
  normalize_team_name "Real  Madrid" = "real  madrid"
  /\ space_run (normalize_team_name "Real  Madrid") = true.
Proof. split; reflexivity. Qed.

Section Matcher.
Context {fuzz : FuzzLib}.

(** C6. The fuzzy matcher, at its default threshold, accepts two names
    exactly when their normalised forms are equal, or their ratio is at
    least 80, or their partial ratio is at least 85. *)
Theorem fuzzy_match_teams_accepts (a b : string) :
  fuzzy_match_teams a b default_threshold = true <->
  normalize_team_name a = normalize_team_name b
  \/ (80 <= ratio (normalize_team_name a) (normalize_team_name b))%Z
  \/ (85 <= partial_ratio (normalize_team_name a) (normalize_team_name b))%Z.
Proof.
  unfold fuzzy_match_teams, default_threshold.
  destruct (String.eqb_spec (normalize_team_name a) (normalize_team_name b)) as [E|N].
  - split; [intros _; now left | reflexivity].
  - rewrite orb_true_iff, !Z.leb_le. split.
    + intros H. now right.
    + intros [E|H]; [contradiction | exact H].
Qed.

End Matcher.

(* ================================================================== *)
(** ** The reconciler *)
(* ================================================================== *)

Section Reconciler.
Context {fuzz : FuzzLib}.
Open Scope Z_scope.

(** the three exact tests of [match_game] *)
Definition admissible (g : Game) (o : OfficialGame) : bool :=
  same_day (date g) (o_date o)
  && String.eqb (league g) (o_league o)
  && Bool.eqb (is_home g) (o_is_home o).

(** the score [match_game] ranks candidates by *)
Definition name_score (g : Game) (o : OfficialGame) : Z :=
  ratio (normalize_team_name (opponent g)) (normalize_team_name (o_opponent o)).

(** admissible, and accepted by the fuzzy matcher *)
Definition qualifies (g : Game) (o : OfficialGame) : bool :=
  admissible g o
  && fuzzy_match_teams (opponent g) (o_opponent o) default_threshold.

Lemma admissible_exact (g : Game) (o : OfficialGame) :
  admissible g o = true <->
  date_of (date g) = date_of (o_date o)
  /\ league g = o_league o
  /\ is_home g = o_is_home o.
Proof.
  unfold admissible, same_day, date_of.
  rewrite !andb_true_iff, !Z.eqb_eq, String.eqb_eq, Bool.eqb_true_iff.
  split.
  - intros [[[[Hy Hm] Hd] Hl] Hh]. now rewrite Hy, Hm, Hd.
  - intros (Hd & Hl & Hh). inversion Hd. auto.
Qed.

Lemma match_step_unfold (g : Game) (best : option OfficialGame * Z) (o : OfficialGame) :
  match_step g best o =
  if qualifies g o && (snd best <? name_score g o)
  then (Some o, name_score g o) else best.
Proof.
  unfold match_step, qualifies, admissible, name_score.
  destruct (same_day (date g) (o_date o)); [|reflexivity].
  destruct (String.eqb (league g) (o_league o)); [|reflexivity].
  destruct (Bool.eqb (is_home g) (o_is_home o)); [|reflexivity].
  cbn [negb andb].
  destruct (fuzzy_match_teams (opponent g) (o_opponent o) default_threshold);
    reflexivity.
Qed.

Lemma match_step_inadmissible (g : Game) best (o : OfficialGame) :
  admissible g o = false -> match_step g best o = best.
Proof.
  intros H. rewrite match_step_unfold. unfold qualifies. now rewrite H.
Qed.

(** the loop keeps the first candidate of strictly highest score *)
Lemma match_fold_invariant (g : Game) (pool : list OfficialGame) :
  forall bm bs,
    let r := fold_left (match_step g) pool (bm, bs) in
    bs <= snd r
    /\ (forall o, In o pool -> qualifies g o = true -> name_score g o <= snd r)
    /\ (r = (bm, bs)
        \/ exists o, In o pool /\ qualifies g o = true /\ fst r = Some o
                     /\ snd r = name_score g o /\ bs < name_score g o).
Proof.
  induction pool as [|c pool IH]; intros bm bs; cbn zeta.
  - cbn. repeat split; [lia | intros o [] | now left].
  - cbn [fold_left]. rewrite match_step_unfold. cbn [snd].
    destruct (qualifies g c) eqn:Q; cbn [andb].
    + destruct (bs <? name_score g c) eqn:L; cbn iota.
      * apply Z.ltb_lt in L.
        destruct (IH (Some c) (name_score g c)) as (Hle & Hall & Hres).
        repeat split.
        -- lia.
        -- intros o [<-|Hin] Ho; [exact Hle | now apply Hall].
        -- right. destruct Hres as [E | (o & Hin & Ho & Hf & Hs & Hlt)].
           ++ exists c. rewrite E. cbn. split; [now left|]. repeat split; auto.
           ++ exists o. split; [now right|]. repeat split; auto. lia.
      * apply Z.ltb_ge in L.
        destruct (IH bm bs) as (Hle & Hall & Hres).
        repeat split.
        -- exact Hle.
        -- intros o [<-|Hin] Ho; [lia | now apply Hall].
        -- destruct Hres as [E | (o & Hin & Ho & Hf & Hs & Hlt)];
             [now left | right; exists o; split; [now right|]; repeat split; auto].
    + destruct (IH bm bs) as (Hle & Hall & Hres).
      repeat split.
      * exact Hle.
      * intros o [<-|Hin] Ho; [congruence | now apply Hall].
      * destruct Hres as [E | (o & Hin & Ho & Hf & Hs & Hlt)];
          [now left | right; exists o; split; [now right|]; repeat split; auto].
Qed.

Lemma match_fold_filter (g : Game) (pool : list OfficialGame) :
  forall best,
    fold_left (match_step g) (filter (admissible g) pool) best
    = fold_left (match_step g) pool best.
Proof.
  induction pool as [|c pool IH]; intros best; [reflexivity|].
  cbn [filter fold_left]. destruct (admissible g c) eqn:A.
  - cbn [fold_left]. apply IH.
  - rewrite (match_step_inadmissible g best c A). apply IH.
Qed.

Lemma match_game_some (g : Game) (pool : list OfficialGame) (o : OfficialGame) :
  match_game g pool = Some o ->
  In o pool /\ qualifies g o = true /\ 75 <= name_score g o
  /\ forall o', In o' pool -> qualifies g o' = true ->
                name_score g o' <= name_score g o.
Proof.
  unfold match_game.
  destruct (match_fold_invariant g pool None 0) as (Hle & Hall & Hres).
  destruct (fold_left (match_step g) pool (None, 0)) as [bm bs] eqn:E.
  cbn [fst snd] in *.
  destruct (75 <=? bs) eqn:T; [|discriminate].
  apply Z.leb_le in T. intros ->.
  destruct Hres as [E' | (c & Hin & Hc & Hf & Hs & Hlt)]; [discriminate|].
  injection Hf as <-. subst bs. auto.
Qed.

Lemma match_game_none (g : Game) (pool : list OfficialGame) :
  match_game g pool = None <->
  forall o, In o pool -> qualifies g o = true -> name_score g o < 75.
Proof.
  unfold match_game.
  destruct (match_fold_invariant g pool None 0) as (Hle & Hall & Hres).
  destruct (fold_left (match_step g) pool (None, 0)) as [bm bs] eqn:E.
  cbn [fst snd] in *.
  destruct (75 <=? bs) eqn:T.
  - apply Z.leb_le in T.
    destruct Hres as [E' | (c & Hin & Hc & Hf & Hs & Hlt)].
    + injection E' as _ ->. lia.
    + subst bm. split; [discriminate|].
      intros H. specialize (H c Hin Hc). lia.
  - apply Z.leb_gt in T. split; [|reflexivity].
    intros _ o Hin Ho. specialize (Hall o Hin Ho). lia.
Qed.

(** C1. [match_game] looks only at candidates whose calendar date, league
    and home/away flag equal the entry's; among those the fuzzy matcher
    accepts it returns one of highest ratio score, and only when that
    score is at least 75: a best score of exactly 75 is a match, a best
    score of 74 is none. *)
Theorem match_game_best (g : Game) (pool : list OfficialGame) :
  (forall o, admissible g o = true <->
             date_of (date g) = date_of (o_date o)
             /\ league g = o_league o /\ is_home g = o_is_home o)
  /\ match_game g pool = match_game g (filter (admissible g) pool)
  /\ (forall o, match_game g pool = Some o ->
        In o pool /\ qualifies g o = true /\ 75 <= name_score g o
        /\ forall o', In o' pool -> qualifies g o' = true ->
                      name_score g o' <= name_score g o)
  /\ (match_game g pool = None <->
      forall o, In o pool -> qualifies g o = true -> name_score g o < 75)
  /\ (forall o, In o pool -> qualifies g o = true -> name_score g o = 75 ->
        (forall o', In o' pool -> qualifies g o' = true -> name_score g o' <= 75) ->
        exists o', match_game g pool = Some o' /\ qualifies g o' = true
                   /\ name_score g o' = 75)
  /\ (forall o, In o pool -> qualifies g o = true -> name_score g o = 74 ->
        (forall o', In o' pool -> qualifies g o' = true -> name_score g o' <= 74) ->
        match_game g pool = None).
Proof.
  split; [intros o; apply admissible_exact|].
  split; [unfold match_game; now rewrite match_fold_filter|].
  split; [apply match_game_some|].
  split; [apply match_game_none|].
  split.
  - intros o Hin Ho Hs Hmax.
    destruct (match_game g pool) as [o'|] eqn:M.
    + destruct (match_game_some g pool o' M) as (Hin' & Ho' & H75 & _).
      exists o'. repeat split; auto.
      specialize (Hmax o' Hin' Ho'). lia.
    + pose proof (proj1 (match_game_none g pool) M o Hin Ho). lia.
  - intros o Hin Ho Hs Hmax. apply match_game_none.
    intros o' Hin' Ho'. specialize (Hmax o' Hin' Ho'). lia.
Qed.

End Reconciler.

(** the boundary on concrete names, with the reference scorer:
    "abc" against "abcde" scores 75 and is accepted through the partial
    ratio; fourteen letters against the same followed by ten digits
    score 74 *)
Definition entry_named (name : string) : Game :=
  mkGame "" (mkdt 2025 10 7 0 0 0) name true "EuroLeague" None 0.
Definition candidate_named (name : string) : OfficialGame :=
  mkOfficial (mkdt 2025 10 7 0 0 0) name true (mkdt 2025 10 7 20 30 0) "EuroLeague".

Lemma match_game_boundary :
  (exists o, match_game (fuzz := RefFuzz.ref_fuzz)
               (entry_named "abc") [candidate_named "abcde"] = Some o
             /\ name_score (fuzz := RefFuzz.ref_fuzz) (entry_named "abc") o = 75%Z)
  /\ match_game (fuzz := RefFuzz.ref_fuzz) (entry_named "abcdefghijklmn")
       [candidate_named "abcdefghijklmn0123456789"] = None.
Proof.
  split.
  - destruct (match_game_best (fuzz := RefFuzz.ref_fuzz)
                (entry_named "abc") [candidate_named "abcde"])
      as (_ & _ & _ & _ & B75 & _).
    destruct (B75 (candidate_named "abcde")) as (o & Hm & _ & Hs).
    + now left.
    + vm_compute. reflexivity.
    + vm_compute. reflexivity.
    + intros o' [<-|[]] _. vm_compute. discriminate.
    + exists o. split; assumption.
  - destruct (match_game_best (fuzz := RefFuzz.ref_fuzz)
                (entry_named "abcdefghijklmn")
                [candidate_named "abcdefghijklmn0123456789"])
      as (_ & _ & _ & _ & _ & B74).
    apply (B74 (candidate_named "abcdefghijklmn0123456789")).
    + now left.
    + vm_compute. reflexivity.
    + vm_compute. reflexivity.
    + intros o' [<-|[]] _. vm_compute. discriminate.
Defined.

(* ================================================================== *)
(** ** The line parser *)
(* ================================================================== *)

(** the date the parser reads off a stripped line, if any *)
Definition find_date (line : string) : option datetime :=
  match search date_re line with
  | Some date_match => parse_date (group1 date_match)
  | None => None
  end.

Definition scenario_line : string :=
  "Nov 13, 2025 - vs Valencia Basket @ Halle Georges Carpentier Arena".

(** C2 as stated fails: a home line that names its venue carries both
    markers and is parsed, as a home game. *)
Lemma both_markers_parsed :
  home_marker (strip scenario_line) = true
  /\ away_marker (strip scenario_line) = true
  /\ extract_game_info scenario_line "EuroLeague"
     = Some (mkGame scenario_line (mkdt 2025 11 13 0 0 0) "Valencia Basket"
                    true "EuroLeague" None 0).
Proof. repeat split; vm_compute; reflexivity. Qed.

(** C2, as the code has it. A line on which neither marker is found is
    not a game entry.  A line on which both are found is read as a home
    game: it is turned away only as a blank, comment or completed line,
    for want of a date, or for want of an opponent after "vs"; otherwise
    the entry has [is_home] set and its opponent is the text read after
    "vs". *)
Theorem extract_game_info_markers (line league : string) :
  (home_marker (strip line) = false -> away_marker (strip line) = false ->
   extract_game_info line league = None)
  /\ (home_marker (strip line) = true -> away_marker (strip line) = true ->
      (extract_game_info line league = None <->
       not_a_fixture (strip line) = true
       \/ find_date (strip line) = None
       \/ search home_opp_re (strip line) = None)
      /\ (forall g, extract_game_info line league = Some g ->
            is_home g = true
            /\ exists m, search home_opp_re (strip line) = Some m
                         /\ opponent g = strip (group1 m))).
Proof.
  unfold extract_game_info, find_date.
  set (l := strip line).
  split.
  - intros Hh Ha. rewrite Hh, Ha. cbn [orb negb].
    destruct (not_a_fixture l); [reflexivity|].
    destruct (search date_re l) as [dm|]; [|reflexivity].
    destruct (parse_date (group1 dm)); reflexivity.
  - intros Hh Ha. rewrite Hh, Ha. cbn [orb negb].
    destruct (not_a_fixture l).
    { split; [split; [now left | reflexivity] | discriminate]. }
    destruct (search date_re l) as [dm|].
    2:{ split; [split; [now (right; left) | reflexivity] | discriminate]. }
    destruct (parse_date (group1 dm)) as [d|].
    2:{ split; [split; [now (right; left) | reflexivity] | discriminate]. }
    destruct (search home_opp_re l) as [om|].
    2:{ split; [split; [now (right; right) | reflexivity] | discriminate]. }
    split.
    + split; [discriminate|]. intros [H|[H|H]]; discriminate.
    + intros g Hg. injection Hg as <-. cbn. split; [reflexivity|].
      exists om. split; reflexivity.
Qed.

Lemma extract_game_info_markers_scenario :
  (extract_game_info scenario_line "EuroLeague" = None <->
   not_a_fixture (strip scenario_line) = true
   \/ find_date (strip scenario_line) = None
   \/ search home_opp_re (strip scenario_line) = None)
  /\ (forall g, extract_game_info scenario_line "EuroLeague" = Some g ->
        is_home g = true
        /\ exists m, search home_opp_re (strip scenario_line) = Some m
                     /\ opponent g = strip (group1 m)).
Proof.
  apply (proj2 (extract_game_info_markers scenario_line "EuroLeague"));
    vm_compute; reflexivity.
Defined.

(* ================================================================== *)
(** ** The line rewriter *)
(* ================================================================== *)

Module RewriterFacts.
Import Text TextFacts.

Lemma contains_at (s : string) : contains "@" s = negb (all_chars not_at s).
Proof.
  induction s as [|c s IH]; [reflexivity|].
  cbn [contains all_chars prefix]. unfold not_at at 1.
  destruct (ascii_dec "@" c) as [<-|N].
  - now destruct s.
  - assert (Ascii.eqb c "@" = false) as -> by (apply Ascii.eqb_neq; congruence).
    cbn. rewrite IH. now destruct s.
Qed.

Lemma contains_at_middle (pre post : string) :
  contains "@" (pre ++ String "@" post) = true.
Proof.
  rewrite contains_at, all_chars_append. cbn.
  now rewrite andb_false_r.
Qed.

Lemma rsplit1_last (pre post : string) :
  all_chars not_at post = true ->
  rsplit1 "@" (pre ++ String "@" post) = Some (pre, post).
Proof.
  intros Hpost.
  assert (rsplit1 "@" post = None) as Hnone.
  { induction post as [|c post IH]; [reflexivity|].
    cbn in Hpost. apply andb_prop in Hpost as [Hc Hp].
    cbn [rsplit1]. rewrite (IH Hp).
    unfold not_at in Hc. now destruct (Ascii.eqb c "@"). }
  induction pre as [|x pre IH]; cbn [append rsplit1].
  - now rewrite Hnone.
  - now rewrite IH.
Qed.

Lemma rstrip_append_visible (a b : string) :
  rstrip b <> "" -> rstrip (a ++ b) = a ++ rstrip b.
Proof.
  intros Hb. induction a as [|x a IH]; [reflexivity|].
  cbn [append rstrip]. rewrite IH.
  destruct (a ++ rstrip b) eqn:E; [|reflexivity].
  destruct a; [cbn in E; contradiction | discriminate].
Qed.

Lemma endswith_char_append (a b : string) :
  b <> "" -> endswith_char "@" (a ++ b) = endswith_char "@" b.
Proof.
  intros Hb. induction a as [|x a IH]; [reflexivity|].
  cbn [append endswith_char]. rewrite IH.
  destruct (a ++ b) eqn:E; [|reflexivity].
  destruct a; [cbn in E; contradiction | discriminate].
Qed.

Lemma endswith_char_absent (s : string) :
  all_chars not_at s = true -> endswith_char "@" s = false.
Proof.
  induction s as [|c s IH]; [reflexivity|].
  cbn. intros H. apply andb_prop in H as [Hc Hs].
  destruct s; [unfold not_at in Hc; now destruct (Ascii.eqb c "@") | now apply IH].
Qed.

Lemma rstrip_keeps (p : ascii -> bool) (s : string) :
  all_chars p s = true -> all_chars p (rstrip s) = true.
Proof.
  induction s as [|c s IH]; [reflexivity|].
  cbn [all_chars rstrip]. intros H. apply andb_prop in H as [Hc Hs].
  specialize (IH Hs). destruct (rstrip s).
  - destruct (isspace c); [reflexivity | cbn; now rewrite Hc].
  - cbn [all_chars] in *. now rewrite Hc, IH.
Qed.

End RewriterFacts.

Import RewriterFacts.

(** the pattern of a time suffix starts with a comma, so a match is never
    empty: [sub_remove] drops at least one character per match *)
Lemma time_suffix_consumes (s rest : string) (caps : captures) :
  match_at time_suffix_re s = Some (rest, caps) ->
  String.length rest < String.length s.
Proof.
  unfold match_at, time_suffix_re.
  set (k := fun (caps : captures) (rest : string) => Some (rest, caps)).
  assert (ReFacts.consuming k) as Hk
      by (intros caps' s0 o' E'; injection E' as <-; cbn; lia).
  match goal with
  | |- exec (Seq ?l ?r) s [] k = _ -> _ =>
      change (exec (Seq l r) s [] k)
        with (match eat true "," s with
              | Some s' => exec r s' [] k
              | None => None
              end);
      pose proof (ReFacts.exec_consuming r k Hk []) as Hrest
  end.
  destruct (eat true "," s) as [s'|] eqn:E; [|discriminate].
  intros H. apply Hrest in H. cbn [fst] in H.
  destruct s as [|c s]; [discriminate|]. cbn [eat] in E.
  destruct (char_eq true "," c); [|discriminate].
  injection E as <-. cbn. lia.
Qed.

(** the insertion branch of the rewriter, on the line as left by the
    removal of a previous time *)
Lemma update_line_with_time_split (line new_time pre post : string) :
  sub_remove time_suffix_re line = pre ++ String "@" post ->
  all_chars not_at post = true ->
  rstrip post <> "" ->
  update_line_with_time line new_time = pre ++ ", " ++ new_time ++ " @" ++ post.
Proof.
  intros Hline Hpost Hvis. unfold update_line_with_time. rewrite Hline.
  rewrite contains_at_middle.
  replace (pre ++ String "@" post) with ((pre ++ "@") ++ post)
    by (rewrite append_assoc; reflexivity).
  rewrite (rstrip_append_visible (pre ++ "@") post Hvis).
  rewrite (endswith_char_append (pre ++ "@") (rstrip post) Hvis).
  rewrite (endswith_char_absent (rstrip post) (rstrip_keeps not_at post Hpost)).
  cbn [negb andb].
  rewrite append_assoc. cbn [append].
  now rewrite (rsplit1_last pre post Hpost).
Qed.

(** C9. A line that reads [pre @ post], with no further "@" in [post]
    and some visible text in it, as an away line without a venue does,
    gets the new time in front of that "@" instead of at its end; so does
    a line that reads so once a previous time is removed. *)
Theorem update_line_with_time_before_marker (line new_time pre post : string) :
  all_chars not_at post = true ->
  rstrip post <> "" ->
  (line = pre ++ String "@" post -> search time_suffix_re line = None ->
   update_line_with_time line new_time = pre ++ ", " ++ new_time ++ " @" ++ post)
  /\ (sub_remove time_suffix_re line = pre ++ String "@" post ->
      update_line_with_time line new_time = pre ++ ", " ++ new_time ++ " @" ++ post).
Proof.
  intros Hpost Hvis. split.
  - intros Hline Hnone. apply update_line_with_time_split; [|exact Hpost|exact Hvis].
    now rewrite (ReFacts.sub_remove_no_match _ _ Hnone).
  - intros Hline. now apply update_line_with_time_split.
Qed.

Lemma update_line_with_time_away_example :
  update_line_with_time "Oct 7, 2025 - @ Real Madrid" "2:00 PM ET"
  = "Oct 7, 2025 - , 2:00 PM ET @ Real Madrid".
Proof.
  refine (proj1 (update_line_with_time_before_marker
                   "Oct 7, 2025 - @ Real Madrid" "2:00 PM ET"
                   "Oct 7, 2025 - " " Real Madrid" _ _) _ _).
  - vm_compute. reflexivity.
  - vm_compute. discriminate.
  - reflexivity.
  - vm_compute. reflexivity.
Defined.

(** C4 at a home line with a venue: the second rewrite takes the old
    time out but leaves the blank that followed it, so the line grows by
    one blank on every run.  A line without "@", where the time is put at
    the end, comes back unchanged. *)
Lemma update_line_with_time_twice :
  update_line_with_time "Oct 1, 2025 - vs Valencia Basket @ Astroballe" "2:45 PM ET"
  = "Oct 1, 2025 - vs Valencia Basket , 2:45 PM ET @ Astroballe"
  /\ update_line_with_time
       (update_line_with_time "Oct 1, 2025 - vs Valencia Basket @ Astroballe"
                              "2:45 PM ET") "2:45 PM ET"
     = "Oct 1, 2025 - vs Valencia Basket  , 2:45 PM ET @ Astroballe"
  /\ update_line_with_time
       (update_line_with_time "Oct 7, 2025 - vs Real Madrid" "2:00 PM ET")
       "2:00 PM ET"
     = update_line_with_time "Oct 7, 2025 - vs Real Madrid" "2:00 PM ET".
Proof. repeat split; vm_compute; reflexivity. Qed.

(* ================================================================== *)
(** ** End to end: the Valencia line *)
(* ================================================================== *)

Definition scenario_entry (lg : string) : Game :=
  mkGame scenario_line (mkdt 2025 11 13 0 0 0) "Valencia Basket" true lg None 0.

Definition scenario_candidate (lg : string) : OfficialGame :=
  mkOfficial (mkdt 2025 11 13 0 0 0) "Valencia BC" true
             (mkdt 2025 11 13 20 45 0) lg.

Definition scenario_output : string :=
  "Nov 13, 2025 - vs Valencia Basket , 2:45 PM ET @ Halle Georges Carpentier Arena".

Definition paris_config : Config :=
  mkConfig "Paris Basketball" "Europe/Paris" ["EuroLeague"; "LNB Pro A"].

Section Scenario.
Context {fuzz : FuzzLib}.
Open Scope Z_scope.

(** a candidate that alone passes the three exact tests, is accepted by
    the fuzzy matcher and scores at least 75, is the match *)
Lemma match_game_only_admissible (g : Game) (c : OfficialGame)
      (before after : list OfficialGame) :
  Forall (fun o => admissible g o = false) (before ++ after) ->
  qualifies g c = true -> 75 <= name_score g c ->
  match_game g (before ++ c :: after) = Some c.
Proof.
  intros Hothers Hc Hs.
  apply Forall_app in Hothers as [Hb Ha].
  assert (forall l best, Forall (fun o => admissible g o = false) l ->
                         fold_left (match_step g) l best = best) as Hskip.
  { induction l as [|o l IH]; intros best Hl; [reflexivity|].
    inversion Hl; subst. cbn [fold_left].
    rewrite match_step_inadmissible by assumption. now apply IH. }
  unfold match_game. rewrite fold_left_app, (Hskip before _ Hb).
  cbn [fold_left]. rewrite match_step_unfold, Hc. cbn [snd andb].
  assert ((0 <? name_score g c) = true) as -> by (apply Z.ltb_lt; lia).
  rewrite (Hskip after _ Ha).
  now assert ((75 <=? name_score g c) = true) as -> by (apply Z.leb_le; lia).
Qed.

(** C5. For the line of the Valencia home game, a current league [lg] and
    a pool in which the Valencia BC record of 2025-11-13 20:45 is the only
    one of that date, league and side, with Europe/Paris as the source
    zone: the record is matched, 20:45 in Paris is rendered "2:45 PM ET",
    and the line written ends with
    ", 2:45 PM ET @ Halle Georges Carpentier Arena".  The scorer is asked
    to rate "valencia" against "valencia bc" at 80 or more. *)
Theorem valencia_scenario (config : Config) (st : Scan) (lg : string)
        (before after : list OfficialGame) :
  timezone config = "Europe/Paris" ->
  detect_league config (current_league st) scenario_line = Some lg ->
  lg <> "" ->
  80 <= ratio "valencia" "valencia bc" ->
  Forall (fun o => admissible (scenario_entry lg) o = false) (before ++ after) ->
  let pool := (before ++ scenario_candidate lg :: after)%list in
  extract_game_info scenario_line lg = Some (scenario_entry lg)
  /\ match_game (scenario_entry lg) pool = Some (scenario_candidate lg)
  /\ option_map format_time_et
       (convert_to_et (local_time (scenario_candidate lg)) (timezone config))
     = Some "2:45 PM ET"
  /\ process_line config pool st scenario_line
     = Some (mkScan (updated_lines st ++ [scenario_output])
                    (S (updated_count st)) (skipped_count st)
                    (unmatched_games st) (Some lg))
  /\ endswith ", 2:45 PM ET @ Halle Georges Carpentier Arena" scenario_output = true.
Proof.
  intros Htz Hlg Hne Hratio Hothers pool.
  assert (extract_game_info scenario_line lg = Some (scenario_entry lg)) as Hparse
      by (vm_compute; reflexivity).
  assert (match_game (scenario_entry lg) pool = Some (scenario_candidate lg)) as Hmatch.
  { apply match_game_only_admissible; [exact Hothers | | ].
    - unfold qualifies, admissible. cbn [scenario_entry scenario_candidate
        date o_date league o_league is_home o_is_home opponent o_opponent].
      rewrite String.eqb_refl. cbn [same_day year month day Z.eqb Pos.eqb andb Bool.eqb].
      unfold fuzzy_match_teams, default_threshold.
      change (normalize_team_name "Valencia Basket") with "valencia".
      change (normalize_team_name "Valencia BC") with "valencia bc".
      cbn [String.eqb Ascii.eqb Bool.eqb].
      apply orb_true_iff. left. now apply Z.leb_le.
    - unfold name_score. cbn [scenario_entry scenario_candidate opponent o_opponent].
      change (normalize_team_name "Valencia Basket") with "valencia".
      change (normalize_team_name "Valencia BC") with "valencia bc".
      lia. }
  assert (option_map format_time_et
            (convert_to_et (local_time (scenario_candidate lg)) (timezone config))
          = Some "2:45 PM ET") as Htime
      by (rewrite Htz; vm_compute; reflexivity).
  split; [exact Hparse|]. split; [exact Hmatch|]. split; [exact Htime|].
  split; [|vm_compute; reflexivity].
  unfold process_line. rewrite Hlg.
  assert (skip_line config scenario_line = false) as ->.
  { unfold skip_line.
    change (contains "Rank:" scenario_line || contains "Source:" scenario_line)
      with false.
    rewrite andb_false_r. vm_compute. reflexivity. }
  apply String.eqb_neq in Hne. rewrite Hne, Hparse, Hmatch.
  destruct (convert_to_et (local_time (scenario_candidate lg)) (timezone config))
    as [et|]; [|discriminate].
  injection Htime as Htime. rewrite Htime.
  change (update_line_with_time scenario_line "2:45 PM ET") with scenario_output.
  reflexivity.
Qed.

End Scenario.

(** the scenario run with the reference scorer, after a header line, in a
    pool that also holds a game of another day *)
Lemma valencia_scenario_run :
  let st := mkScan ["EuroLeague"] 0 0 [] (Some "EuroLeague") in
  let other := mkOfficial (mkdt 2025 11 19 0 0 0) "AS Monaco" true
                          (mkdt 2025 11 19 20 0 0) "EuroLeague" in
  process_line (fuzz := RefFuzz.ref_fuzz) paris_config
               [other; scenario_candidate "EuroLeague"] st scenario_line
  = Some (mkScan ["EuroLeague"; scenario_output] 1 0 [] (Some "EuroLeague")).
Proof.
  intros st other.
  refine (proj1 (proj2 (proj2 (proj2
           (valencia_scenario (fuzz := RefFuzz.ref_fuzz) paris_config st "EuroLeague"
              [other] [] _ _ _ _ _))))).
  - reflexivity.
  - vm_compute. reflexivity.
  - discriminate.
  - vm_compute. discriminate.
  - repeat constructor.
Defined.

(* ================================================================== *)
(** ** Lines of a file *)
(* ================================================================== *)

Module LineFacts.
Import Text TextFacts.

Definition not_newline (c : ascii) : bool := negb (Ascii.eqb c newline).
Definition one_line (s : string) : bool := all_chars not_newline s.

Lemma split_lines_nonempty (s : string) : split_lines s <> [].
Proof.
  induction s as [|c s IH]; [discriminate|].
  cbn [split_lines]. destruct (Ascii.eqb c newline); [discriminate|].
  destruct (split_lines s); discriminate.
Qed.

Lemma split_lines_one_line (s : string) :
  Forall (fun l => one_line l = true) (split_lines s).
Proof.
  induction s as [|c s IH]; [repeat constructor|].
  cbn [split_lines]. destruct (Ascii.eqb c newline) eqn:E.
  - constructor; [reflexivity | exact IH].
  - destruct (split_lines s) as [|h t].
    + repeat constructor. unfold one_line, not_newline. cbn. now rewrite E.
    + inversion IH; subst. constructor; [|assumption].
      unfold one_line, not_newline in *. cbn. now rewrite E.
Qed.

Lemma split_lines_append (l rest : string) :
  one_line l = true ->
  split_lines (l ++ String newline rest) = l :: split_lines rest.
Proof.
  induction l as [|c l IH]; intros Hl.
  - reflexivity.
  - unfold one_line, not_newline in Hl. cbn in Hl.
    apply andb_prop in Hl as [Hc Hl].
    cbn [append split_lines].
    destruct (Ascii.eqb c newline); [discriminate|].
    now rewrite (IH Hl).
Qed.

Lemma split_lines_single (l : string) :
  one_line l = true -> split_lines l = [l].
Proof.
  induction l as [|c l IH]; intros Hl; [reflexivity|].
  unfold one_line, not_newline in Hl. cbn in Hl.
  apply andb_prop in Hl as [Hc Hl].
  cbn [split_lines]. destruct (Ascii.eqb c newline); [discriminate|].
  now rewrite (IH Hl).
Qed.

(** splitting what was joined gives the lines back *)
Lemma split_join_lines (ls : list string) :
  ls <> [] -> Forall (fun l => one_line l = true) ls ->
  split_lines (join_lines ls) = ls.
Proof.
  induction ls as [|l ls IH]; intros Hne Hall; [contradiction|].
  inversion Hall as [|? ? Hl Hls]; subst.
  destruct ls as [|l' ls'].
  - cbn. now apply split_lines_single.
  - cbn [join_lines]. rewrite (split_lines_append _ _ Hl).
    f_equal. apply IH; [discriminate | assumption].
Qed.

Lemma sub_from_keeps (p : ascii -> bool) (r : Re.regex) (s : string) :
  forall skip, all_chars p s = true -> all_chars p (Re.sub_from r s skip) = true.
Proof.
  induction s as [|c s IH]; intros skip Hs; [reflexivity|].
  cbn in Hs. apply andb_prop in Hs as [Hc Hs].
  cbn [Re.sub_from]. destruct skip as [|n]; [|now apply IH].
  destruct (Re.match_at r (String c s)) as [[rest' caps]|].
  - destruct (String.length (String c s) - String.length rest').
    + cbn. now rewrite Hc, IH.
    + now apply IH.
  - cbn. now rewrite Hc, IH.
Qed.

Lemma rsplit1_keeps (p : ascii -> bool) (c : ascii) (s a b : string) :
  rsplit1 c s = Some (a, b) -> all_chars p s = true ->
  all_chars p a = true /\ all_chars p b = true.
Proof.
  revert a b. induction s as [|x s IH]; intros a b; [discriminate|].
  cbn [rsplit1 all_chars]. intros H Hs. apply andb_prop in Hs as [Hx Hs].
  destruct (rsplit1 c s) as [[a' b']|].
  - injection H as <- <-. destruct (IH a' b' eq_refl Hs) as [Ha Hb].
    cbn. now rewrite Hx, Ha, Hb.
  - destruct (Ascii.eqb x c); [|discriminate].
    injection H as <- <-. now split.
Qed.

Lemma digit_char_one_line (d : Z) : not_newline (Clock.digit_char d) = true.
Proof.
  unfold Clock.digit_char. generalize (Z.to_nat (d mod 10)) as n. intros n.
  do 10 (destruct n as [|n]; [reflexivity|]).
  now destruct n.
Qed.

End LineFacts.

Import LineFacts.

Lemma format_time_et_one_line (dt : datetime) : one_line (format_time_et dt) = true.
Proof.
  assert (one_line (strftime_I_M_p_ET dt) = true) as H.
  { unfold strftime_I_M_p_ET, one_line, two_digits, am_pm. cbn [append all_chars].
    rewrite !digit_char_one_line. now destruct (hour dt <? 12)%Z. }
  unfold format_time_et. destruct (startswith "0" (strftime_I_M_p_ET dt)); [|exact H].
  destruct (strftime_I_M_p_ET dt) as [|c s]; [reflexivity|].
  unfold one_line in H. cbn in H. now apply andb_prop in H as [_ H].
Qed.

Lemma update_line_with_time_one_line (line new_time : string) :
  one_line line = true -> one_line new_time = true ->
  one_line (update_line_with_time line new_time) = true.
Proof.
  unfold one_line. intros Hl Ht. unfold update_line_with_time.
  pose proof (sub_from_keeps not_newline time_suffix_re line 0 Hl) as Hs.
  fold (sub_remove time_suffix_re line) in Hs.
  set (l := sub_remove time_suffix_re line) in *.
  assert (all_chars not_newline (l ++ ", " ++ new_time) = true) as Hend.
  { rewrite !all_chars_append, Hs, Ht. reflexivity. }
  destruct (contains "@" l && negb (endswith_char "@" (rstrip l))); [|exact Hend].
  destruct (rsplit1 "@" l) as [[p0 p1]|] eqn:E; [|exact Hend].
  destruct (rsplit1_keeps not_newline _ _ _ _ E Hs) as [H0 H1].
  rewrite !all_chars_append, H0, Ht, H1. reflexivity.
Qed.

(* ================================================================== *)
(** ** The driver *)
(* ================================================================== *)

(** the kinds of line that are no future-game line: blank, comment,
    completed game, Rank:/Source: header of the team, or any line the
    parser turns away *)
Definition not_a_future_game (config : Config) (line : string) : Prop :=
  strip line = ""
  \/ startswith "#" (strip line) = true
  \/ contains "(W " line = true
  \/ contains "(L " line = true
  \/ (contains (team_name config) line = true
      /\ (contains "Rank:" line = true \/ contains "Source:" line = true))
  \/ (forall lg, extract_game_info line lg = None).

(** what the driver may write for a line: the line itself, or the line
    with a time spliced in; the former whenever it is no future-game line *)
Definition rewritten (config : Config) (line out : string) : Prop :=
  (out = line \/ exists dt, out = update_line_with_time line (format_time_et dt))
  /\ (not_a_future_game config line -> out = line).

(** add lines already written in front of a state *)
Definition prepend {fuzz : FuzzLib} (pre : list string) (st : Scan) : Scan :=
  mkScan (pre ++ updated_lines st) (updated_count st) (skipped_count st)
         (unmatched_games st) (current_league st).

Section Driver.
Context {fuzz : FuzzLib}.
#[local] Open Scope list_scope.
Variable config : Config.
Variable official_games : list OfficialGame.

Lemma not_a_future_game_passes (line : string) :
  not_a_future_game config line ->
  skip_line config line = true \/ forall lg, extract_game_info line lg = None.
Proof.
  unfold skip_line.
  intros [H|[H|[H|[H|[[H1 H2]|H]]]]].
  - left. rewrite H. reflexivity.
  - right. intros lg. unfold extract_game_info, not_a_fixture.
    rewrite H. now rewrite orb_true_r.
  - left. rewrite H. now rewrite !orb_true_r.
  - left. rewrite H. now rewrite !orb_true_r.
  - left. rewrite H1.
    assert ((contains "Rank:" line || contains "Source:" line) = true) as ->
        by (apply orb_true_iff; exact H2).
    now rewrite !orb_true_r.
  - now right.
Qed.

(** every outcome of the loop body appends exactly one line *)
Lemma process_line_outcome (st st' : Scan) (line : string) :
  process_line config official_games st line = Some st' ->
  exists out, updated_lines st' = updated_lines st ++ [out]
              /\ rewritten config line out.
Proof.
  unfold process_line, rewritten.
  set (cur := detect_league config (current_league st) line).
  assert (forall s, Some (pass_through st cur line) = Some s ->
                    exists out, updated_lines s = updated_lines st ++ [out]
                      /\ (out = line \/
                          exists dt, out = update_line_with_time line (format_time_et dt))
                      /\ (not_a_future_game config line -> out = line)) as Hpass.
  { intros s Hs. injection Hs as <-. exists line. cbn. auto. }
  destruct (skip_line config line) eqn:Hskip; [apply Hpass|].
  destruct cur as [lg|]; [|apply Hpass].
  destruct (String.eqb lg ""); [apply Hpass|].
  destruct (extract_game_info line lg) as [game|] eqn:Hgame; [|apply Hpass].
  assert (~ not_a_future_game config line) as Hgame_line.
  { intros Hn. destruct (not_a_future_game_passes line Hn) as [H|H];
      [congruence | rewrite H in Hgame; discriminate]. }
  destruct (match_game game official_games) as [found_game|].
  - destruct (convert_to_et (local_time found_game) (timezone config)) as [et|];
      [|discriminate].
    intros H. injection H as <-. eexists. cbn. split; [reflexivity|].
    split; [right; now exists et | intros Hn; contradiction].
  - intros H. injection H as <-. exists line. cbn. split; [reflexivity|].
    split; [now left | reflexivity].
Qed.

(** the loop body raises only for a zone name [ZoneInfo] does not know *)
Lemma process_line_total (st : Scan) (line : string) :
  ZoneInfo (timezone config) <> None ->
  exists st', process_line config official_games st line = Some st'.
Proof.
  intros Hz. unfold process_line, convert_to_et.
  destruct (ZoneInfo (timezone config)); [|contradiction].
  destruct (skip_line config line); [eauto|].
  destruct (detect_league config (current_league st) line) as [lg|]; [|eauto].
  destruct (String.eqb lg ""); [eauto|].
  destruct (extract_game_info line lg); [|eauto].
  destruct (match_game _ official_games); [|eauto].
  destruct (String.eqb (timezone config) "America/New_York"); eauto.
Qed.

Lemma scan_lines_total (lines : list string) :
  ZoneInfo (timezone config) <> None ->
  forall st, exists st', scan_lines config official_games st lines = Some st'.
Proof.
  intros Hz. induction lines as [|line lines IH]; intros st; [cbn; eauto|].
  cbn [scan_lines].
  destruct (process_line_total st line Hz) as [st1 ->]. apply IH.
Qed.

Lemma scan_lines_outcome (lines : list string) :
  forall st st',
    scan_lines config official_games st lines = Some st' ->
    exists outs, updated_lines st' = updated_lines st ++ outs
                 /\ Forall2 (rewritten config) lines outs.
Proof.
  induction lines as [|line lines IH]; intros st st'; cbn [scan_lines].
  - intros H. injection H as <-. exists []. now rewrite app_nil_r.
  - destruct (process_line config official_games st line) as [st1|] eqn:E;
      [|discriminate].
    intros H. destruct (process_line_outcome _ _ _ E) as (out & Hout & Hrw).
    destruct (IH _ _ H) as (outs & Houts & Hall).
    exists (out :: outs). split; [|now constructor].
    rewrite Houts, Hout, <- app_assoc. reflexivity.
Qed.

Lemma rewritten_one_line (line out : string) :
  rewritten config line out -> one_line line = true -> one_line out = true.
Proof.
  intros [[->|[dt ->]] _] Hl; [exact Hl|].
  apply update_line_with_time_one_line; [exact Hl | apply format_time_et_one_line].
Qed.

Lemma rewritten_all_one_line (lines outs : list string) :
  Forall2 (rewritten config) lines outs ->
  Forall (fun l => one_line l = true) lines ->
  Forall (fun l => one_line l = true) outs.
Proof.
  induction 1 as [|line out lines outs Hrw _ IH]; intros Hl; [constructor|].
  inversion Hl; subst. constructor; [now apply (rewritten_one_line line) | now apply IH].
Qed.

Lemma rewritten_refl (lines : list string) :
  Forall2 (rewritten config) lines lines.
Proof.
  induction lines; constructor; [split; auto | assumption].
Qed.

Lemma rewritten_nth (lines outs : list string) :
  Forall2 (rewritten config) lines outs ->
  forall i line, nth_error lines i = Some line ->
                 exists out, nth_error outs i = Some out /\ rewritten config line out.
Proof.
  induction 1 as [|l o lines outs Hrw _ IH]; intros i line.
  - destruct i; discriminate.
  - destruct i as [|i]; cbn.
    + intros H. injection H as <-. eauto.
    + apply IH.
Qed.

(** a run, when it returns, writes the lines of the file each rewritten *)
Lemma process_schedule_file_lines (text : string) (report : Report) :
  process_schedule_file config official_games text = Some report ->
  Forall2 (rewritten config) (split_lines text) (split_lines (file_text report)).
Proof.
  unfold process_schedule_file. destruct official_games as [|g gs] eqn:Epool.
  - intros H. injection H as <-. cbn. apply rewritten_refl.
  - rewrite <- Epool.
    destruct (scan_lines config official_games initial_scan (split_lines text))
      as [st|] eqn:E; [|discriminate].
    intros H. injection H as <-. cbn [file_text].
    destruct (scan_lines_outcome _ _ _ E) as (outs & Houts & Hall).
    cbn in Houts. rewrite Houts.
    rewrite split_join_lines; [exact Hall | | ].
    + intros ->. inversion Hall as [Hnil|]. now apply (split_lines_nonempty text).
    + apply (rewritten_all_one_line _ _ Hall), split_lines_one_line.
Qed.

Lemma process_schedule_file_total (text : string) :
  ZoneInfo (timezone config) <> None ->
  exists report, process_schedule_file config official_games text = Some report.
Proof.
  intros Hz. unfold process_schedule_file.
  destruct official_games as [|g gs] eqn:Epool; [eauto|]. rewrite <- Epool.
  destruct (scan_lines_total (split_lines text) Hz initial_scan) as [st ->]. eauto.
Qed.

(** C3. A run over a file returns whenever the zone of the team is known,
    and what it leaves has as many lines as the file, in the same order:
    line for line the output is the input line or the input line with a
    time spliced in, and it is the input line itself for every blank line,
    comment, completed game, Rank:/Source: header and any other line the
    parser does not take for a game. *)
Theorem process_schedule_file_preserves_lines (text : string) :
  (ZoneInfo (timezone config) <> None ->
   exists report, process_schedule_file config official_games text = Some report)
  /\ forall report,
      process_schedule_file config official_games text = Some report ->
      List.length (split_lines (file_text report)) = List.length (split_lines text)
      /\ forall i line,
          nth_error (split_lines text) i = Some line ->
          exists out,
            nth_error (split_lines (file_text report)) i = Some out
            /\ (out = line
                \/ exists dt, out = update_line_with_time line (format_time_et dt))
            /\ (not_a_future_game config line -> out = line).
Proof.
  split; [apply process_schedule_file_total|].
  intros report Hrun.
  pose proof (process_schedule_file_lines text report Hrun) as Hall.
  split.
  - symmetry. exact (Forall2_length Hall).
  - intros i line Hi.
    destruct (rewritten_nth _ _ Hall i line Hi) as (out & Ho & Hr1 & Hr2).
    exists out. auto.
Qed.

(** the loop never reads the lines already written *)
Lemma process_line_prepend (pre : list string) (st : Scan) (line : string) :
  process_line config official_games (prepend pre st) line
  = option_map (prepend pre) (process_line config official_games st line).
Proof.
  unfold process_line, pass_through, prepend. cbn [current_league updated_lines
    updated_count skipped_count unmatched_games].
  destruct (skip_line config line); [cbn; now rewrite app_assoc|].
  destruct (detect_league config (current_league st) line) as [lg|];
    [|cbn; now rewrite app_assoc].
  destruct (String.eqb lg ""); [cbn; now rewrite app_assoc|].
  destruct (extract_game_info line lg) as [game|]; [|cbn; now rewrite app_assoc].
  destruct (match_game game official_games) as [found_game|];
    [|cbn; now rewrite app_assoc].
  destruct (convert_to_et (local_time found_game) (timezone config));
    cbn; [now rewrite app_assoc | reflexivity].
Qed.

Lemma scan_lines_prepend (pre : list string) (lines : list string) :
  forall st,
    scan_lines config official_games (prepend pre st) lines
    = option_map (prepend pre) (scan_lines config official_games st lines).
Proof.
  induction lines as [|line lines IH]; intros st; [reflexivity|].
  cbn [scan_lines]. rewrite process_line_prepend.
  destruct (process_line config official_games st line) as [st1|]; cbn; [apply IH | reflexivity].
Qed.

(** with no league set and none named, the line is only copied *)
Lemma process_line_before_league (st : Scan) (line : string) :
  current_league st = None ->
  find (names_league line) (leagues config) = None ->
  process_line config official_games st line = Some (pass_through st None line).
Proof.
  intros Hcur Hnone. unfold process_line, detect_league.
  rewrite Hcur, Hnone. now destruct (skip_line config line).
Qed.

(** C10. Lines that come before the first line naming a configured
    league are copied as they are and leave no other trace: a scan of
    [pre ++ rest], where no line of [pre] names a league, is the scan of
    [rest] alone with [pre] put in front of the lines written; the two
    counts, the unmatched games and the league carried are those of
    [rest].  The pool is not consulted for [pre]. *)
Theorem scan_lines_before_first_league (pre rest : list string) :
  Forall (fun line => find (names_league line) (leagues config) = None) pre ->
  scan_lines config official_games initial_scan (pre ++ rest)
  = option_map (prepend pre) (scan_lines config official_games initial_scan rest).
Proof.
  intros Hpre.
  assert (forall done,
            scan_lines config official_games (prepend done initial_scan) (pre ++ rest)
            = scan_lines config official_games (prepend (done ++ pre) initial_scan) rest)
    as Hcopy.
  { induction Hpre as [|line pre Hline _ IH]; intros done.
    - now rewrite app_nil_r.
    - cbn [app scan_lines].
      rewrite (process_line_before_league (prepend done initial_scan) line eq_refl Hline).
      replace (pass_through (prepend done initial_scan) None line)
        with (prepend (done ++ [line]) initial_scan)
        by (unfold pass_through, prepend; cbn; now rewrite !app_nil_r).
      rewrite (IH (done ++ [line])), <- app_assoc. reflexivity. }
  specialize (Hcopy []). cbn [app] in Hcopy.
  rewrite <- scan_lines_prepend, <- Hcopy.
  reflexivity.
Qed.

End Driver.

(** a small file of the Paris team: header, blank, comment, league
    header, a completed game and the Valencia line *)
Definition sample_lines : list string :=
  [ "Paris Basketball - Rank: 5";
    "";
    "# home games first";
    "EuroLeague";
    "Oct 1, 2025 - vs ASVEL @ Adidas Arena (W 88-75)";
    scenario_line ].

Lemma process_schedule_file_sample :
  exists report,
    process_schedule_file (fuzz := RefFuzz.ref_fuzz) paris_config
      [scenario_candidate "EuroLeague"] (join_lines sample_lines) = Some report
    /\ List.length (split_lines (file_text report)) = 6%nat
    /\ nth_error (split_lines (file_text report)) 4
       = Some "Oct 1, 2025 - vs ASVEL @ Adidas Arena (W 88-75)".
Proof.
  destruct (process_schedule_file_preserves_lines (fuzz := RefFuzz.ref_fuzz)
              paris_config [scenario_candidate "EuroLeague"] (join_lines sample_lines))
    as [Hruns Hlines].
  destruct Hruns as [report Hrun]; [discriminate|].
  exists report. split; [exact Hrun|].
  destruct (Hlines report Hrun) as [Hlen Hnth].
  split; [rewrite Hlen; vm_compute; reflexivity|].
  destruct (Hnth 4%nat "Oct 1, 2025 - vs ASVEL @ Adidas Arena (W 88-75)")
    as (out & Hout & _ & Hsame); [vm_compute; reflexivity|].
  rewrite Hout. f_equal. apply Hsame.
  right. right. left. vm_compute. reflexivity.
Defined.

(** the Valencia line placed above the first league header is copied,
    though the pool holds its game; below the header it is rewritten *)
Lemma scan_lines_before_first_league_sample :
  scan_lines (fuzz := RefFuzz.ref_fuzz) paris_config
    [scenario_candidate "EuroLeague"] initial_scan
    ([scenario_line] ++ ["EuroLeague"; scenario_line])%list
  = Some (mkScan [scenario_line; "EuroLeague"; scenario_output] 1 0 []
                 (Some "EuroLeague")).
Proof.
  rewrite (scan_lines_before_first_league (fuzz := RefFuzz.ref_fuzz) paris_config
             [scenario_candidate "EuroLeague"] [scenario_line]
             ["EuroLeague"; scenario_line]).
  - vm_compute. reflexivity.
  - repeat constructor.
Defined.

(** every team of [TEAM_CONFIG] has a zone [ZoneInfo] knows, so no run
    over a configured file raises *)
Lemma team_config_zones_known :
  Forall (fun entry => ZoneInfo (timezone (snd entry)) <> None) TEAM_CONFIG.
Proof. repeat constructor; discriminate. Qed.

(* ================================================================== *)
(** ** What a match is made of *)
(* ================================================================== *)

Module MatchFacts.
Import Text Re TextFacts.

(** some character of [s] satisfies [p] *)
Fixpoint any_char (p : ascii -> bool) (s : string) : bool :=
  match s with
  | "" => false
  | String c r => p c || any_char p r
  end.

(** the characters a pattern can read *)
Fixpoint alphabet (r : regex) (c : ascii) : bool :=
  match r with
  | Eps => false
  | Lit icase lit => any_char (fun a => char_eq icase a c) lit
  | Cls p => p c
  | Rep _ p _ _ => p c
  | Alt r1 r2 => alphabet r1 c || alphabet r2 c
  | Seq r1 r2 => alphabet r1 c || alphabet r2 c
  | Grp _ r1 => alphabet r1 c
  | Eos => false
  end.

(** [P n t] holds of every text group [n] of the pattern can capture *)
Fixpoint groups_in (P : nat -> string -> Prop) (r : regex) : Prop :=
  match r with
  | Grp n r1 =>
      (forall t, all_chars (alphabet r1) t = true -> P n t) /\ groups_in P r1
  | Alt r1 r2 => groups_in P r1 /\ groups_in P r2
  | Seq r1 r2 => groups_in P r1 /\ groups_in P r2
  | _ => True
  end.

Definition captures_in (P : nat -> string -> Prop) (caps : captures) : Prop :=
  Forall (fun nt => P (fst nt) (snd nt)) caps.

Lemma all_chars_weaken (p q : ascii -> bool) (s : string) :
  (forall c, p c = true -> q c = true) ->
  all_chars p s = true -> all_chars q s = true.
Proof.
  intros Hpq. induction s as [|c s IH]; [reflexivity|].
  cbn. intros H. apply andb_prop in H as [Hc Hs].
  now rewrite (Hpq c Hc), IH.
Qed.

Lemma take_prefix (pre s : string) :
  take (String.length (pre ++ s) - String.length s) (pre ++ s) = pre.
Proof.
  induction pre as [|c pre IH].
  - cbn. rewrite Nat.sub_diag. now destruct s.
  - cbn [append String.length].
    assert (String.length (pre ++ s) >= String.length s) as Hge.
    { clear. induction pre; cbn; lia. }
    replace (S (String.length (pre ++ s)) - String.length s)
      with (S (String.length (pre ++ s) - String.length s)) by lia.
    cbn [take]. now rewrite IH.
Qed.

Lemma eat_inv (icase : bool) (lit : string) :
  forall s rest,
    eat icase lit s = Some rest ->
    exists pre, s = pre ++ rest
                /\ all_chars (alphabet (Lit icase lit)) pre = true.
Proof.
  induction lit as [|a lit IH]; intros s rest; cbn [eat].
  - destruct s; intros H; injection H as <-; now exists "".
  - destruct s as [|b s]; [discriminate|].
    destruct (char_eq icase a b) eqn:E; [|discriminate].
    intros H. destruct (IH _ _ H) as (pre & -> & Hpre).
    exists (String b pre). split; [reflexivity|].
    cbn [all_chars alphabet any_char]. rewrite E. cbn.
    apply (all_chars_weaken (alphabet (Lit icase lit))); [|exact Hpre].
    intros c Hc. cbn in *. rewrite Hc. apply orb_true_r.
Qed.

Lemma rep_greedy_inv (p : ascii -> bool) (k : string -> outcome) :
  forall s lo hi o,
    rep_greedy p lo hi s k = Some o ->
    exists pre s', s = pre ++ s' /\ all_chars p pre = true /\ k s' = Some o.
Proof.
  induction s as [|c s IH]; intros lo hi o; cbn [rep_greedy].
  - destruct (Nat.eqb lo 0); [|discriminate].
    intros H. now exists "", "".
  - assert ((if Nat.eqb lo 0 then k (String c s) else None) = Some o ->
            exists pre s', String c s = pre ++ s' /\ all_chars p pre = true
                           /\ k s' = Some o) as Hstop.
    { destruct (Nat.eqb lo 0); [|discriminate].
      intros H. now exists "", (String c s). }
    destruct (p c && may_take hi) eqn:Hc; [|exact Hstop].
    destruct (rep_greedy p (pred lo) (one_less hi) s k) as [o'|] eqn:E; [|exact Hstop].
    intros H. injection H as <-.
    destruct (IH _ _ _ E) as (pre & s' & -> & Hpre & Hk).
    exists (String c pre), s'. apply andb_prop in Hc as [Hc _].
    cbn. now rewrite Hc, Hpre.
Qed.

Lemma rep_lazy_inv (p : ascii -> bool) (k : string -> outcome) :
  forall s lo hi o,
    rep_lazy p lo hi s k = Some o ->
    exists pre s', s = pre ++ s' /\ all_chars p pre = true /\ k s' = Some o.
Proof.
  induction s as [|c s IH]; intros lo hi o; cbn [rep_lazy].
  - destruct (Nat.eqb lo 0); [|discriminate].
    destruct (k "") eqn:E; [|discriminate].
    intros H. injection H as <-. now exists "", "".
  - assert ((if p c && may_take hi
             then rep_lazy p (pred lo) (one_less hi) s k else None) = Some o ->
            exists pre s', String c s = pre ++ s' /\ all_chars p pre = true
                           /\ k s' = Some o) as Hmore.
    { destruct (p c && may_take hi) eqn:Hc; [|discriminate].
      intros H. destruct (IH _ _ _ H) as (pre & s' & -> & Hpre & Hk).
      exists (String c pre), s'. apply andb_prop in Hc as [Hc _].
      cbn. now rewrite Hc, Hpre. }
    destruct (Nat.eqb lo 0); [|exact Hmore].
    destruct (k (String c s)) eqn:E; [|exact Hmore].
    intros H. injection H as <-. now exists "", (String c s).
Qed.

(** a successful match splits the text into what the pattern read, made
    of characters of its alphabet, and the text handed on; the groups
    captured on the way hold texts their sub-patterns can read *)
Lemma exec_inv (P : nat -> string -> Prop) (r : regex) :
  groups_in P r ->
  forall k s caps o,
    captures_in P caps ->
    exec r s caps k = Some o ->
    exists pre s' caps',
      s = pre ++ s' /\ all_chars (alphabet r) pre = true
      /\ captures_in P caps' /\ k caps' s' = Some o.
Proof.
  induction r as [|icase lit|p|greedy p lo hi|r1 IH1 r2 IH2|r1 IH1 r2 IH2|n r1 IH1|];
    intros Hg k s caps o Hcaps; cbn [exec].
  - intros H. now exists "", s, caps.
  - destruct (eat icase lit s) as [rest|] eqn:E; [|discriminate].
    intros H. destruct (eat_inv _ _ _ _ E) as (pre & -> & Hpre).
    now exists pre, rest, caps.
  - destruct s as [|c rest]; [discriminate|].
    destruct (p c) eqn:Hc; [|discriminate].
    intros H. exists (String c ""), rest, caps. cbn. now rewrite Hc.
  - destruct greedy; intros H.
    + destruct (rep_greedy_inv _ _ _ _ _ _ H) as (pre & s' & -> & Hpre & Hk).
      now exists pre, s', caps.
    + destruct (rep_lazy_inv _ _ _ _ _ _ H) as (pre & s' & -> & Hpre & Hk).
      now exists pre, s', caps.
  - destruct Hg as [Hg1 Hg2].
    destruct (exec r1 s caps k) as [o'|] eqn:E.
    + intros H. injection H as <-.
      destruct (IH1 Hg1 _ _ _ _ Hcaps E) as (pre & s' & caps' & -> & Hpre & Hc & Hk).
      exists pre, s', caps'. repeat split; auto.
      apply (all_chars_weaken (alphabet r1)); [|exact Hpre].
      intros c Hc'. cbn. now rewrite Hc'.
    + intros H.
      destruct (IH2 Hg2 _ _ _ _ Hcaps H) as (pre & s' & caps' & -> & Hpre & Hc & Hk).
      exists pre, s', caps'. repeat split; auto.
      apply (all_chars_weaken (alphabet r2)); [|exact Hpre].
      intros c Hc'. cbn. rewrite Hc'. apply orb_true_r.
  - destruct Hg as [Hg1 Hg2]. intros H.
    destruct (IH1 Hg1 _ _ _ _ Hcaps H) as (pre1 & s1 & caps1 & -> & Hpre1 & Hc1 & Hk1).
    destruct (IH2 Hg2 _ _ _ _ Hc1 Hk1) as (pre2 & s2 & caps2 & -> & Hpre2 & Hc2 & Hk2).
    exists (pre1 ++ pre2), s2, caps2. rewrite append_assoc. repeat split; auto.
    rewrite all_chars_append. apply andb_true_intro. split.
    + apply (all_chars_weaken (alphabet r1)); [|exact Hpre1].
      intros c Hc'. cbn. now rewrite Hc'.
    + apply (all_chars_weaken (alphabet r2)); [|exact Hpre2].
      intros c Hc'. cbn. rewrite Hc'. apply orb_true_r.
  - destruct Hg as [Hn Hg1]. intros H.
    destruct (IH1 Hg1 _ _ _ _ Hcaps H) as (pre & s' & caps' & -> & Hpre & Hc & Hk).
    rewrite take_prefix in Hk.
    exists pre, s', ((n, pre) :: caps'). repeat split; auto.
    constructor; [apply Hn, Hpre | exact Hc].
  - destruct (at_end s); [|discriminate].
    intros H. now exists "", s, caps.
Qed.

Lemma match_at_inv (P : nat -> string -> Prop) (r : regex) (s rest : string)
      (caps : captures) :
  groups_in P r ->
  match_at r s = Some (rest, caps) ->
  exists pre, s = pre ++ rest /\ all_chars (alphabet r) pre = true
              /\ captures_in P caps.
Proof.
  intros Hg H. unfold match_at in H.
  destruct (exec_inv P r Hg _ _ _ _ (Forall_nil _) H)
    as (pre & s' & caps' & -> & Hpre & Hc & Hk).
  injection Hk as <- <-. now exists pre.
Qed.

(** [re.search] cuts the text in three: the match lies between what is
    before and what is after it *)
Lemma search_inv (P : nat -> string -> Prop) (r : regex) (s : string) (m : found) :
  groups_in P r ->
  search r s = Some m ->
  s = before m ++ matched m ++ after m
  /\ all_chars (alphabet r) (matched m) = true
  /\ captures_in P (groups m).
Proof.
  intros Hg. unfold search.
  assert (forall pre0 t m,
             search_from r pre0 t = Some m ->
             pre0 ++ t = before m ++ matched m ++ after m
             /\ all_chars (alphabet r) (matched m) = true
             /\ captures_in P (groups m)) as Hgen.
  { intros pre0 t. revert pre0.
    induction t as [|c t IH]; intros pre0 m0; cbn [search_from].
    - destruct (match_at r "") as [[rest caps]|] eqn:E; [|discriminate].
      intros H. injection H as <-.
      destruct (match_at_inv P r _ _ _ Hg E) as (pre & Hs & Hpre & Hc).
      unfold found_at. cbn [before matched after groups fst snd].
      rewrite Hs, take_prefix. now rewrite <- Hs.
    - destruct (match_at r (String c t)) as [[rest caps]|] eqn:E.
      + intros H. injection H as <-.
        destruct (match_at_inv P r _ _ _ Hg E) as (pre & Hs & Hpre & Hc).
        unfold found_at. cbn [before matched after groups fst snd].
        rewrite Hs, take_prefix. auto.
      + intros H. destruct (IH _ _ H) as (Hs & Hm & Hc).
        rewrite append_assoc in Hs. cbn in Hs. auto. }
  intros H. apply (Hgen "" s m H).
Qed.

Lemma group_in (P : nat -> string -> Prop) (caps : captures) (n : nat) (t : string) :
  captures_in P caps -> group n caps = Some t -> P n t.
Proof.
  induction 1 as [|[m u] caps Hm _ IH]; cbn [group]; [discriminate|].
  destruct (Nat.eqb m n) eqn:E; [|exact IH].
  intros H. injection H as <-. apply Nat.eqb_eq in E. now subst.
Qed.

End MatchFacts.

(* ================================================================== *)
(** ** The copy of the parser in [test_parsing.py] *)
(* ================================================================== *)

Module TestParsing.

(** [parse_date] of the test script: the one format '%b %d, %Y' *)
Definition parse_date (date_str : string) : option datetime :=
  first_some (strptime (strip date_str)) [ [D_b; D_ws; D_d; D_lit ","; D_ws; D_Y] ].

(** the dictionary the test script's [extract_game_info] returns *)
Record Parsed : Type := mkParsed {
  p_date : datetime;
  p_opponent : string;
  p_is_home : bool;
  p_existing_time : option string;
  p_line : string
}.

Definition extract_game_info (line : string) : option Parsed :=
  let line := strip line in
  if String.eqb line "" || contains "(W " line || contains "(L " line then None else
  match search date_re line with
  | None => None
  | Some date_match =>
      match parse_date (group1 date_match) with
      | None => None
      | Some date =>
          let is_home := contains "vs " line in
          let is_away := contains "@ " line && negb (startswith "@" line) in
          if is_home || is_away then
            match (if is_home then search home_opp_re line
                   else search away_opp_re line) with
            | None => None
            | Some opp_match =>
                let opponent := strip (group1 opp_match) in
                let existing_time :=
                  match search existing_time_re line with
                  | Some time_match => Some (group1 time_match)
                  | None => None
                  end in
                Some (mkParsed date opponent is_home existing_time line)
            end
          else None
      end
  end.

End TestParsing.

(** the fields of a [Game] the test script's dictionary has *)
Definition as_parsed (g : Game) : TestParsing.Parsed :=
  TestParsing.mkParsed (date g) (opponent g) (is_home g) (existing_time g)
                       (original_line g).

(* ================================================================== *)
(** ** More on the line parser *)
(* ================================================================== *)

Module ParserFacts.
Import Text Re TextFacts MatchFacts.

(** a text found with a longer needle is found with the needle cut by
    its first character *)
Lemma contains_tail (c : ascii) (sub s : string) :
  contains (String c sub) s = true -> contains sub s = true.
Proof.
  induction s as [|b s IH]; [discriminate|].
  cbn [contains]. intros H. apply orb_true_iff in H as [H|H].
  - cbn [prefix] in H. destruct (ascii_dec c b); [|discriminate].
    apply orb_true_iff. right.
    destruct s; cbn [contains]; now rewrite H.
  - apply orb_true_iff. right. now apply IH.
Qed.

Lemma home_marker_vs (line : string) : home_marker line = contains "vs " line.
Proof.
  unfold home_marker. destruct (contains "vs " line) eqn:E; [reflexivity|].
  destruct (contains " vs " line) eqn:E'; [|reflexivity].
  apply contains_tail in E'. congruence.
Qed.

Lemma lstrip_spaces (a s : string) :
  all_chars isspace a = true -> lstrip (a ++ s) = lstrip s.
Proof.
  induction a as [|c a IH]; [reflexivity|].
  cbn. intros H. apply andb_prop in H as [Hc Ha]. rewrite Hc. now apply IH.
Qed.

Lemma rstrip_spaces (s b : string) :
  all_chars isspace b = true -> rstrip (s ++ b) = rstrip s.
Proof.
  intros Hb.
  assert (rstrip b = "") as Hb'.
  { induction b as [|c b IH]; [reflexivity|].
    cbn in Hb. apply andb_prop in Hb as [Hc Hb].
    cbn [rstrip]. now rewrite (IH Hb), Hc. }
  induction s as [|c s IH]; [exact Hb'|].
  cbn [append rstrip]. now rewrite IH.
Qed.

Lemma lstrip_append (s b : string) :
  lstrip (s ++ b) = match lstrip s with "" => lstrip b | _ => lstrip s ++ b end.
Proof.
  induction s as [|c s IH]; [cbn; now destruct (lstrip b)|].
  cbn [append lstrip]. destruct (isspace c); [exact IH | reflexivity].
Qed.

(** blanks around a line do not show after [strip] *)
Lemma strip_padding (a s b : string) :
  all_chars isspace a = true -> all_chars isspace b = true ->
  strip (a ++ s ++ b) = strip s.
Proof.
  intros Ha Hb. unfold strip. rewrite (lstrip_spaces a _ Ha), lstrip_append.
  destruct (lstrip s) eqn:E.
  - assert (lstrip b = "") as ->; [|reflexivity].
    clear -Hb. induction b as [|c b IH]; [reflexivity|].
    cbn in *. apply andb_prop in Hb as [Hc Hb]. rewrite Hc. now apply IH.
  - now apply rstrip_spaces.
Qed.

Lemma strip_keeps (p : ascii -> bool) (s : string) :
  all_chars p s = true -> all_chars p (strip s) = true.
Proof.
  intros H. unfold strip. apply RewriterFacts.rstrip_keeps.
  induction s as [|c s IH]; [reflexivity|].
  cbn [lstrip]. cbn in H. apply andb_prop in H as [Hc Hs].
  destruct (isspace c); [now apply IH | cbn; now rewrite Hc, Hs].
Qed.

Lemma strip_head (c : ascii) (t : string) :
  isspace c = false -> exists t', strip (String c t) = String c t'.
Proof.
  intros Hc. unfold strip. cbn [lstrip]. rewrite Hc. cbn [rstrip].
  destruct (rstrip t); [rewrite Hc|]; eauto.
Qed.

(** [strptime] answers with a date of the calendar, at midnight *)
Lemma strptime_valid (data : string) (fmt : list directive) (d : datetime) :
  strptime data fmt = Some d ->
  valid_date (year d) (month d) (day d) = true
  /\ hour d = 0%Z /\ minute d = 0%Z /\ second d = 0%Z.
Proof.
  unfold strptime.
  destruct (match_at (format_re fmt) data) as [[rest caps]|]; [|discriminate].
  destruct rest; [|discriminate].
  match goal with |- context [valid_date ?y ?m ?dd] =>
    destruct (valid_date y m dd) eqn:V end; [|discriminate].
  intros H. injection H as <-. cbn. auto.
Qed.

Lemma parse_date_valid (s : string) (d : datetime) :
  parse_date s = Some d ->
  valid_date (year d) (month d) (day d) = true
  /\ hour d = 0%Z /\ minute d = 0%Z /\ second d = 0%Z.
Proof.
  unfold parse_date, date_formats. cbn [first_some].
  repeat match goal with
         | |- context [strptime ?x ?f] =>
             let E := fresh "E" in
             destruct (strptime x f) eqn:E;
             [intros H; injection H as <-; exact (strptime_valid _ _ _ E)|]
         end.
  discriminate.
Qed.

(** a text that starts with a capital letter fits neither '%Y-%m-%d' nor
    '%d %b %Y' *)
Lemma other_formats_want_digits (c : ascii) (t : string) :
  isupper c = true ->
  strptime (String c t) [D_Y; D_lit "-"; D_m; D_lit "-"; D_d] = None
  /\ strptime (String c t) [D_d; D_ws; D_b; D_ws; D_Y] = None.
Proof.
  intros Hc. each_char c; try discriminate Hc; split; reflexivity.
Qed.

Lemma upper_not_space (c : ascii) : isupper c = true -> isspace c = false.
Proof. each_char c; intros H; try discriminate H; reflexivity. Qed.

Lemma parse_date_capital (c : ascii) (t : string) :
  isupper c = true ->
  parse_date (String c t) = TestParsing.parse_date (String c t).
Proof.
  intros Hc. unfold parse_date, TestParsing.parse_date, date_formats.
  destruct (strip_head c t (upper_not_space c Hc)) as [t' ->].
  cbn [first_some].
  destruct (other_formats_want_digits c t' Hc) as [-> ->].
  reflexivity.
Qed.

(** the date pattern captures a text that starts with its capital letter *)
Lemma date_match_capital (s : string) (m : found) :
  search date_re s = Some m ->
  exists c t, group1 m = String c t /\ isupper c = true.
Proof.
  unfold search. generalize "" as pre0. revert m.
  induction s as [|b s IH]; intros m pre0; cbn [search_from].
  - unfold match_at, date_re. cbn. discriminate.
  - destruct (match_at date_re (String b s)) as [[rest caps]|] eqn:E.
    + intros H. injection H as <-.
      unfold group1, found_at. cbn [groups snd].
      unfold match_at, date_re in E.
      match type of E with
      | exec (Grp _ (Seq (Cls _) ?r)) _ _ ?k0 = _ =>
          change ((if isupper b
                   then exec r s []
                          (fun caps' s' =>
                             k0 ((1, take (String.length (String b s) - String.length s')
                                          (String b s)) :: caps') s')
                   else None) = Some (rest, caps)) in E
      end.
      destruct (isupper b) eqn:Hb; [|discriminate].
      match type of E with
      | exec ?r s [] ?k = _ =>
          destruct (exec_inv (fun _ _ => True) r ltac:(cbn; repeat split; auto) k s [] _
                             (Forall_nil _) E)
            as (pre & s' & caps' & -> & _ & _ & Hk)
      end.
      cbn beta in Hk. injection Hk as <- <-.
      cbn [group Nat.eqb].
      assert (String.length s' <= String.length (pre ++ s')) as Hle
          by (clear; induction pre; cbn; lia).
      match goal with
      | |- exists c t, take ?n _ = _ /\ _ =>
          assert (exists n', n = S n') as [n' ->]
              by (revert Hle; generalize (String.length (pre ++ s'));
                  generalize (String.length s'); intros a b0 Hle;
                  destruct a; [eauto | exists (b0 - S a); lia])
      end.
      cbn [take]. eauto.
    + apply IH.
Qed.

End ParserFacts.

Import ParserFacts MatchFacts.

(** the characters of a time as the parser records it: digits, colon,
    white space and the letters of AM, PM and ET in either case *)
Definition clock_char (c : ascii) : bool :=
  isdigit c || isspace c || Ascii.eqb c ":"
  || any_char (Ascii.eqb (lower_char c)) "ampet".

Lemma clock_re_alphabet (c : ascii) : alphabet clock_re c = clock_char c.
Proof. each_char c; reflexivity. Qed.

(** What every parsed entry is like: it keeps the stripped line and the
    league given; its date is a date of the calendar at midnight; it is a
    home game exactly when "vs " occurs in the line and otherwise the line
    has the away marker; its opponent holds no "@" and no blank at either
    end; the time it records, if any, is made of clock characters; and the
    line is neither blank, nor a comment, nor a completed game. *)
Theorem extract_game_info_entry (line lg : string) (g : Game) :
  extract_game_info line lg = Some g ->
  original_line g = strip line
  /\ league g = lg
  /\ line_number g = 0%Z
  /\ not_a_fixture (strip line) = false
  /\ (valid_date (year (date g)) (month (date g)) (day (date g)) = true
      /\ hour (date g) = 0%Z /\ minute (date g) = 0%Z /\ second (date g) = 0%Z)
  /\ is_home g = contains "vs " (strip line)
  /\ (is_home g = false -> away_marker (strip line) = true)
  /\ all_chars not_at (opponent g) = true
  /\ strip (opponent g) = opponent g
  /\ (forall t, existing_time g = Some t -> all_chars clock_char t = true).
Proof.
  unfold extract_game_info. set (l := strip line).
  destruct (not_a_fixture l) eqn:Hfix; [discriminate|].
  destruct (search date_re l) as [dm|]; [|discriminate].
  destruct (parse_date (group1 dm)) as [d|] eqn:Hd; [|discriminate].
  rewrite home_marker_vs.
  destruct (contains "vs " l || away_marker l) eqn:Hmark; [|discriminate].
  cbn [negb].
  set (P := fun (n : nat) (t : string) => all_chars not_at t = true).
  assert (forall r, (r = home_opp_re \/ r = away_opp_re) -> groups_in P r) as Hgroups.
  { intros r [->| ->]; cbn; repeat split; auto. }
  assert (forall r om, (r = home_opp_re \/ r = away_opp_re) ->
                       search r l = Some om ->
                       all_chars not_at (group1 om) = true) as Hopp.
  { intros r om Hr Hs.
    destruct (search_inv P r l om (Hgroups r Hr) Hs) as (_ & _ & Hc).
    unfold group1. destruct (group 1 (groups om)) as [t|] eqn:Eg; [|reflexivity].
    exact (group_in P _ _ _ Hc Eg). }
  set (Q := fun (n : nat) (t : string) => all_chars (alphabet clock_re) t = true).
  assert (forall t, match search existing_time_re l with
                    | Some tm => Some (group1 tm)
                    | None => None
                    end = Some t -> all_chars clock_char t = true) as Htime.
  { intros t. destruct (search existing_time_re l) as [tm|] eqn:Es; [|discriminate].
    intros H. injection H as <-.
    assert (groups_in Q existing_time_re) as HQ by (cbn; repeat split; auto).
    destruct (search_inv Q _ l tm HQ Es) as (_ & _ & Hc).
    unfold group1. destruct (group 1 (groups tm)) as [t|] eqn:Eg; [|reflexivity].
    apply (all_chars_weaken (alphabet clock_re)).
    - intros c Hc'. now rewrite <- clock_re_alphabet.
    - exact (group_in Q _ _ _ Hc Eg). }
  destruct (contains "vs " l) eqn:Hvs;
    match goal with
    | |- match ?srch with _ => _ end = _ -> _ =>
        destruct srch as [om|] eqn:Eopp; [|discriminate]
    end;
    intros H; injection H as <-;
    cbn [original_line league line_number date is_home opponent existing_time];
    (repeat split;
     [ exact (proj1 (parse_date_valid _ _ Hd))
     | exact (proj1 (proj2 (parse_date_valid _ _ Hd)))
     | exact (proj1 (proj2 (proj2 (parse_date_valid _ _ Hd))))
     | exact (proj2 (proj2 (proj2 (parse_date_valid _ _ Hd))))
     | intros Hh; first [discriminate Hh | exact Hmark]
     | apply strip_keeps; eapply Hopp; [|exact Eopp]; auto
     | apply strip_idem
     | exact Htime ]).
Qed.

Lemma extract_game_info_entry_scenario :
  all_chars not_at "Valencia Basket" = true
  /\ strip "Valencia Basket" = "Valencia Basket".
Proof.
  destruct (extract_game_info_entry scenario_line "EuroLeague"
              (scenario_entry "EuroLeague") ltac:(vm_compute; reflexivity))
    as (_ & _ & _ & _ & _ & _ & _ & Hat & Hstrip & _).
  split; [exact Hat | exact Hstrip].
Defined.

(** Blanks before and after a line make no difference to the parser. *)
Theorem extract_game_info_padding (pad_left line pad_right lg : string) :
  all_chars isspace pad_left = true ->
  all_chars isspace pad_right = true ->
  extract_game_info (pad_left ++ line ++ pad_right) lg = extract_game_info line lg.
Proof.
  intros Ha Hb. unfold extract_game_info.
  now rewrite (strip_padding pad_left line pad_right Ha Hb).
Qed.

Lemma extract_game_info_padding_scenario :
  extract_game_info ("    " ++ scenario_line ++ "  ") "EuroLeague"
  = Some (scenario_entry "EuroLeague").
Proof.
  rewrite (extract_game_info_padding "    " scenario_line "  " "EuroLeague");
    vm_compute; reflexivity.
Defined.

(** On every line that is no comment, the parser of the test script and
    the parser of the updater read the same date, opponent, side and time,
    whatever the league. *)
Theorem test_parser_agrees (line lg : string) :
  startswith "#" (strip line) = false ->
  TestParsing.extract_game_info line = option_map as_parsed (extract_game_info line lg).
Proof.
  intros Hhash.
  unfold TestParsing.extract_game_info, extract_game_info, not_a_fixture, away_marker.
  rewrite strip_idem, Hhash, orb_false_r.
  set (l := strip line).
  destruct (String.eqb l "" || contains "(W " l || contains "(L " l); [reflexivity|].
  destruct (search date_re l) as [dm|] eqn:Edm; [|reflexivity].
  destruct (date_match_capital l dm Edm) as (c & t & -> & Hc).
  rewrite <- (parse_date_capital c t Hc).
  destruct (parse_date (String c t)) as [d|]; [|reflexivity].
  rewrite home_marker_vs.
  destruct (contains "vs " l || contains "@ " l && negb (startswith "@" l));
    [|reflexivity].
  cbn [negb].
  destruct (if contains "vs " l then search home_opp_re l else search away_opp_re l);
    reflexivity.
Qed.

Lemma test_parser_agrees_scenario :
  TestParsing.extract_game_info scenario_line
  = Some (as_parsed (scenario_entry "EuroLeague")).
Proof.
  rewrite (test_parser_agrees scenario_line "EuroLeague");
    vm_compute; reflexivity.
Defined.

(* ================================================================== *)
(** ** More on the reconciler and the normaliser *)
(* ================================================================== *)

Section ReconcilerOrder.
Context {fuzz : FuzzLib}.
#[local] Open Scope Z_scope.
#[local] Open Scope list_scope.

(** the loop either keeps what it started with, nothing in the pool
    scoring higher, or ends on the first candidate of the highest score *)
Lemma match_fold_first (g : Game) (pool : list OfficialGame) :
  forall bm bs,
    (fold_left (match_step g) pool (bm, bs) = (bm, bs)
     /\ forall o, In o pool -> qualifies g o = true -> name_score g o <= bs)
    \/ exists l1 o l2,
        pool = l1 ++ o :: l2
        /\ qualifies g o = true
        /\ fold_left (match_step g) pool (bm, bs) = (Some o, name_score g o)
        /\ bs < name_score g o
        /\ (forall o', In o' l1 -> qualifies g o' = true ->
                       name_score g o' < name_score g o)
        /\ (forall o', In o' l2 -> qualifies g o' = true ->
                       name_score g o' <= name_score g o).
Proof.
  induction pool as [|c pool IH]; intros bm bs.
  - left. split; [reflexivity | intros o []].
  - cbn [fold_left]. rewrite match_step_unfold. cbn [snd].
    destruct (qualifies g c && (bs <? name_score g c)) eqn:Take.
    + apply andb_prop in Take as [Qc Lc]. apply Z.ltb_lt in Lc.
      right. destruct (IH (Some c) (name_score g c))
        as [[E Hall] | (l1 & o & l2 & -> & Qo & E & Hlt & H1 & H2)].
      * exists [], c, pool. repeat split; auto. intros o' [].
      * exists (c :: l1), o, l2. repeat split; auto; [lia|].
        intros o' [<-|Hin] Ho'; [exact Hlt | now apply H1].
    + assert (qualifies g c = true -> name_score g c <= bs) as Hc.
      { intros Qc. rewrite Qc in Take. cbn in Take. now apply Z.ltb_ge in Take. }
      destruct (IH bm bs)
        as [[E Hall] | (l1 & o & l2 & -> & Qo & E & Hlt & H1 & H2)].
      * left. split; [exact E|].
        intros o [<-|Hin] Ho; [now apply Hc | now apply Hall].
      * right. exists (c :: l1), o, l2. repeat split; auto.
        intros o' [<-|Hin] Ho'; [specialize (Hc Ho'); lia | now apply H1].
Qed.

(** Ties go to the candidate seen first: the record [match_game] returns
    stands in the pool after candidates that all score strictly less, and
    before candidates that score no more. *)
Theorem match_game_first_of_best (g : Game) (pool : list OfficialGame)
        (o : OfficialGame) :
  match_game g pool = Some o ->
  exists l1 l2,
    pool = l1 ++ o :: l2
    /\ (forall o', In o' l1 -> qualifies g o' = true ->
                   name_score g o' < name_score g o)
    /\ (forall o', In o' l2 -> qualifies g o' = true ->
                   name_score g o' <= name_score g o).
Proof.
  unfold match_game.
  destruct (match_fold_first g pool None 0)
    as [[E _] | (l1 & c & l2 & Hpool & _ & E & _ & H1 & H2)]; rewrite E.
  - cbn. discriminate.
  - destruct (75 <=? name_score g c); [|discriminate].
    intros H. injection H as <-. now exists l1, l2.
Qed.

(** Candidates put at the end of the pool that do not beat one already
    in it, such as the same record fetched a second time, do not change
    the answer. *)
Theorem match_game_late_candidates (g : Game) (pool extra : list OfficialGame) :
  (forall o, In o extra -> qualifies g o = true ->
             exists o', In o' pool /\ qualifies g o' = true
                        /\ name_score g o <= name_score g o') ->
  match_game g (pool ++ extra) = match_game g pool.
Proof.
  intros Hextra. unfold match_game. rewrite fold_left_app.
  destruct (match_fold_invariant g pool None 0) as (_ & Hall & _).
  destruct (fold_left (match_step g) pool (None, 0)) as [bm bs] eqn:E.
  cbn [snd] in Hall.
  assert (forall l, (forall o, In o l -> In o extra) ->
                    fold_left (match_step g) l (bm, bs) = (bm, bs)) as Hkeep.
  { induction l as [|c l IH]; intros Hl; [reflexivity|].
    cbn [fold_left]. rewrite match_step_unfold. cbn [snd].
    destruct (qualifies g c) eqn:Qc; cbn [andb].
    - destruct (Hextra c (Hl c (or_introl eq_refl)) Qc) as (o' & Hin & Qo & Hle).
      specialize (Hall o' Hin Qo).
      assert ((bs <? name_score g c) = false) as -> by (apply Z.ltb_ge; lia).
      apply IH. intros o Ho. apply Hl. now right.
    - apply IH. intros o Ho. apply Hl. now right. }
  now rewrite (Hkeep extra (fun o H => H)).
Qed.

End ReconcilerOrder.

Lemma match_game_first_of_best_tie :
  let first := candidate_named "abcde" in
  let second := mkOfficial (mkdt 2025 10 7 0 0 0) "abcde" true
                           (mkdt 2025 10 7 18 0 0) "EuroLeague" in
  exists l2,
    [first; second] = ([] ++ first :: l2)%list
    /\ match_game (fuzz := RefFuzz.ref_fuzz) (entry_named "abc") [first; second]
       = Some first.
Proof.
  intros first second.
  assert (match_game (fuzz := RefFuzz.ref_fuzz) (entry_named "abc") [first; second]
          = Some first) as H by (vm_compute; reflexivity).
  destruct (match_game_first_of_best (fuzz := RefFuzz.ref_fuzz) _ _ _ H)
    as (l1 & l2 & Hpool & H1 & _).
  destruct l1 as [|x l1].
  - exists l2. split; [exact Hpool | exact H].
  - exfalso. injection Hpool as Hx Hrest. subst x.
    assert (name_score (fuzz := RefFuzz.ref_fuzz) (entry_named "abc") first
            < name_score (fuzz := RefFuzz.ref_fuzz) (entry_named "abc") first)%Z
      as Habs by (apply H1; [now left | vm_compute; reflexivity]).
    lia.
Defined.

Lemma match_game_late_candidates_twice :
  match_game (fuzz := RefFuzz.ref_fuzz) (entry_named "abc")
    ([candidate_named "abcde"] ++ [candidate_named "abcde"])%list
  = Some (candidate_named "abcde").
Proof.
  rewrite (match_game_late_candidates (fuzz := RefFuzz.ref_fuzz)).
  - vm_compute. reflexivity.
  - intros o [<-|[]] Ho. exists (candidate_named "abcde").
    split; [now left|]. split; [exact Ho | lia].
Defined.

(** The noise words are spelled with capitals: a name written without
    any upper-case letter loses none of them and is only stripped. *)
Theorem normalize_team_name_lowercase_input (name : string) :
  all_chars not_upper name = true ->
  normalize_team_name name = strip name.
Proof.
  intros H. unfold normalize_team_name.
  rewrite (noise_words_absent name H).
  apply lower_fixed, strip_keeps, H.
Qed.

Lemma normalize_team_name_lowercase_example :
  normalize_team_name "valencia basket" = "valencia basket".
Proof.
  rewrite (normalize_team_name_lowercase_input "valencia basket");
    vm_compute; reflexivity.
Defined.

(* ================================================================== *)
(** ** [parse_time] *)
(* ================================================================== *)

Module TimeOfDay.
Import LineFacts.
#[local] Open Scope Z_scope.

(** a [datetime.time] *)
Record time : Type := mktime { t_hour : Z; t_minute : Z; t_second : Z }.

Definition time_eqb (a b : time) : bool :=
  (t_hour a =? t_hour b) && (t_minute a =? t_minute b) && (t_second a =? t_second b).

Inductive tdirective : Type :=
| T_H                  (* %H *)
| T_I                  (* %I *)
| T_M                  (* %M *)
| T_S                  (* %S *)
| T_p                  (* %p *)
| T_ws                 (* white space in the format *)
| T_lit (s : string).  (* any other text *)

Definition grp_H : nat := 5%nat.
Definition grp_I : nat := 6%nat.
Definition grp_M : nat := 7%nat.
Definition grp_S : nat := 8%nat.
Definition grp_p : nat := 9%nat.

(** the pattern [_strptime] compiles for each directive *)
Definition tdirective_re (d : tdirective) : regex :=
  (match d with
   | T_H => Grp grp_H ((Lit true "2" ;; Cls (between 48 51))
                       <|> (Cls (between 48 49) ;; Cls isdigit)
                       <|> Cls isdigit)
   | T_I => Grp grp_I ((Lit true "1" ;; Cls (between 48 50))
                       <|> (Lit true "0" ;; Cls (between 49 57))
                       <|> Cls (between 49 57))
   | T_M => Grp grp_M ((Cls (between 48 53) ;; Cls isdigit) <|> Cls isdigit)
   | T_S => Grp grp_S ((Lit true "6" ;; Cls (between 48 49))
                       <|> (Cls (between 48 53) ;; Cls isdigit)
                       <|> Cls isdigit)
   | T_p => Grp grp_p (Lit true "am" <|> Lit true "pm")
   | T_ws => Rep true isspace 1 None
   | T_lit s => Lit true s
   end)%re.

Definition tformat_re (fmt : list tdirective) : regex :=
  fold_right (fun d r => Seq (tdirective_re d) r) Eps fmt.

(** the hour [_strptime] makes of %I and %p *)
Definition hour_of_12 (h : Z) (ampm : string) : Z :=
  if String.eqb ampm "" || String.eqb ampm "am" then (if h =? 12 then 0 else h)
  else if String.eqb ampm "pm" then (if h =? 12 then h else h + 12)
  else h.

(** [datetime.strptime(data, fmt).time()]; [None] stands for [ValueError] *)
Definition strptime_time (data : string) (fmt : list tdirective) : option time :=
  match match_at (tformat_re fmt) data with
  | Some ("", caps) =>
      let hour :=
        match group grp_H caps with
        | Some s => int s
        | None =>
            match group grp_I caps with
            | Some s =>
                hour_of_12 (int s)
                  (match group grp_p caps with Some p => lower p | None => "" end)
            | None => 0
            end
        end in
      let minute := match group grp_M caps with Some s => int s | None => 0 end in
      let second := match group grp_S caps with Some s => int s | None => 0 end in
      if second <=? 59 then Some (mktime hour minute second) else None
  | _ => None
  end.

(** r'\s*(ET|CET|CEST|local).*$' under re.IGNORECASE *)
Definition zone_suffix_re : regex :=
  (Rep true isspace 0 None ;;
   Grp 1 (Lit true "ET" <|> Lit true "CET" <|> Lit true "CEST" <|> Lit true "local") ;;
   Rep true not_newline 0 None ;; Eos)%re.

(** '%H:%M', '%I:%M %p', '%H:%M:%S' *)
Definition time_formats : list (list tdirective) :=
  [ [T_H; T_lit ":"; T_M];
    [T_I; T_lit ":"; T_M; T_ws; T_p];
    [T_H; T_lit ":"; T_M; T_lit ":"; T_S] ].

Definition parse_time (time_str : string) : option time :=
  let time_str := sub_remove zone_suffix_re time_str in
  let time_str := strip time_str in
  first_some (strptime_time time_str) time_formats.

End TimeOfDay.

(* ================================================================== *)
(** ** Times of day: formatting, parsing, conversion *)
(* ================================================================== *)

Module TimeFacts.
Import TimeOfDay.
#[local] Open Scope Z_scope.

(** a property of the integers below [n], checked one by one *)
Lemma below_cases (n : nat) (check : Z -> bool) :
  forallb (fun k => check (Z.of_nat k)) (seq 0 n) = true ->
  forall z, 0 <= z < Z.of_nat n -> check z = true.
Proof.
  intros H z Hz. rewrite forallb_forall in H.
  rewrite <- (Z2Nat.id z) by lia. apply H, in_seq. lia.
Qed.

(** a property of the hours and minutes of a day, checked one by one *)
Definition all_times (check : Z -> Z -> bool) : bool :=
  forallb (fun h => forallb (fun m => check (Z.of_nat h) (Z.of_nat m)) (seq 0 60))
          (seq 0 24).

Lemma all_times_spec (check : Z -> Z -> bool) :
  all_times check = true ->
  forall h m, 0 <= h < 24 -> 0 <= m < 60 -> check h m = true.
Proof.
  intros H h m Hh Hm.
  apply (below_cases 60 (check h)); [|exact Hm].
  apply (below_cases 24
           (fun h => forallb (fun m => check h (Z.of_nat m)) (seq 0 60)));
    [exact H | exact Hh].
Qed.

Lemma time_eqb_eq (a b : time) : time_eqb a b = true -> a = b.
Proof.
  destruct a, b. unfold time_eqb. cbn.
  rewrite !andb_true_iff, !Z.eqb_eq. intros [[-> ->] ->]. reflexivity.
Qed.

(** only the hour and the minute of a reading show in its rendering *)
Lemma format_time_et_fields (dt : datetime) :
  format_time_et dt = format_time_et (mkdt 0 0 0 (hour dt) (minute dt) 0).
Proof. reflexivity. Qed.

Definition clock (h m : Z) : string := format_time_et (mkdt 0 0 0 h m 0).

End TimeFacts.

Import TimeOfDay TimeFacts.

(** [parse_time] reads back what [format_time_et] writes: for every hour
    and minute of the day, the text "H:MM AM/PM ET" parses to that hour (on
    the 24-hour clock) and minute, with zero seconds. *)
Theorem parse_time_format_time_et (dt : datetime) :
  (0 <= hour dt < 24)%Z -> (0 <= minute dt < 60)%Z ->
  parse_time (format_time_et dt) = Some (mktime (hour dt) (minute dt) 0).
Proof.
  intros Hh Hm. rewrite format_time_et_fields.
  pose (check := fun h m =>
          match parse_time (clock h m) with
          | Some t => time_eqb t (mktime h m 0)
          | None => false
          end).
  assert (all_times check = true) as Hall by (vm_compute; reflexivity).
  pose proof (all_times_spec check Hall _ _ Hh Hm) as H.
  unfold check, clock in H.
  destruct (parse_time (format_time_et (mkdt 0 0 0 (hour dt) (minute dt) 0)));
    [|discriminate].
  now rewrite (time_eqb_eq _ _ H).
Qed.

Lemma parse_time_format_time_et_scenario :
  parse_time "2:45 PM ET" = Some (mktime 14 45 0).
Proof.
  apply (parse_time_format_time_et (mkdt 2025 11 13 14 45 0)); cbn; lia.
Defined.

(** The time text the driver writes for an hour and minute of the day
    never starts with a zero, is taken out whole, with its comma, by the
    pattern the rewriter removes old times with, and is found whole by the
    pattern the parser reads an existing time with. *)
Theorem format_time_et_recognised (dt : datetime) :
  (0 <= hour dt < 24)%Z -> (0 <= minute dt < 60)%Z ->
  startswith "0" (format_time_et dt) = false
  /\ sub_remove time_suffix_re (", " ++ format_time_et dt) = ""
  /\ exists m, search existing_time_re (format_time_et dt) = Some m
               /\ before m = "" /\ matched m = format_time_et dt
               /\ after m = "" /\ group1 m = format_time_et dt.
Proof.
  intros Hh Hm. rewrite format_time_et_fields.
  pose (check := fun h m =>
          negb (startswith "0" (clock h m))
          && String.eqb (sub_remove time_suffix_re (", " ++ clock h m)) ""
          && match search existing_time_re (clock h m) with
             | Some f => String.eqb (before f) "" && String.eqb (matched f) (clock h m)
                         && String.eqb (after f) "" && String.eqb (group1 f) (clock h m)
             | None => false
             end).
  assert (all_times check = true) as Hall by (vm_compute; reflexivity).
  pose proof (all_times_spec check Hall _ _ Hh Hm) as H.
  unfold check, clock in H.
  apply andb_prop in H as [H H3]. apply andb_prop in H as [H1 H2].
  split; [now apply negb_true_iff in H1|].
  split; [now apply String.eqb_eq in H2|].
  destruct (search existing_time_re _) as [f|]; [|discriminate].
  exists f. rewrite !andb_true_iff, !String.eqb_eq in H3.
  destruct H3 as [[[Hb Hmt] Ha] Hg]. auto.
Qed.

Lemma format_time_et_recognised_noon :
  sub_remove time_suffix_re ", 12:05 PM ET" = "".
Proof.
  apply (format_time_et_recognised (mkdt 2025 1 1 12 5 0)); cbn; lia.
Defined.

(** the zone marks [parse_time] is shown to drop *)
Definition zone_marks : list string :=
  [""; " ET"; " CET"; " CEST"; " local"; " local time"; "CET"; " cest"].

(** [parse_time] reads every "HH:MM" of the 24-hour clock, alone or
    followed by a zone mark, as that hour and minute. *)
Theorem parse_time_24h (h m : Z) (mark : string) :
  (0 <= h < 24)%Z -> (0 <= m < 60)%Z -> In mark zone_marks ->
  parse_time (two_digits h ++ ":" ++ two_digits m ++ mark) = Some (mktime h m 0).
Proof.
  intros Hh Hm Hmark.
  pose (check := fun h m =>
          forallb (fun mark =>
                     match parse_time (two_digits h ++ ":" ++ two_digits m ++ mark) with
                     | Some t => time_eqb t (mktime h m 0)
                     | None => false
                     end) zone_marks).
  assert (all_times check = true) as Hall by (vm_compute; reflexivity).
  pose proof (all_times_spec check Hall _ _ Hh Hm) as H.
  unfold check in H. rewrite forallb_forall in H. specialize (H mark Hmark).
  destruct (parse_time _); [|discriminate].
  now rewrite (time_eqb_eq _ _ H).
Qed.

Lemma parse_time_24h_example :
  parse_time "20:45 CET" = Some (mktime 20 45 0).
Proof.
  apply (parse_time_24h 20 45 " CET"); [lia | lia | cbn; auto].
Defined.



(* ================================================================== *)
(** ** What the rewriter leaves of a line *)
(* ================================================================== *)

(** [a] is [b] with some characters left out *)
Inductive subsequence : string -> string -> Prop :=
| subsequence_end : forall s, subsequence "" s
| subsequence_keep : forall c a b, subsequence a b -> subsequence (String c a) (String c b)
| subsequence_drop : forall c a b, subsequence a b -> subsequence a (String c b).

Module RewriterShape.
Import Text Re TextFacts RewriterFacts.

Lemma sub_from_subsequence (r : regex) (s : string) :
  forall skip, subsequence (sub_from r s skip) s.
Proof.
  induction s as [|c s IH]; intros skip; [constructor|].
  cbn [sub_from]. destruct skip as [|n]; [|now constructor].
  destruct (match_at r (String c s)) as [[rest caps]|].
  - destruct (String.length (String c s) - String.length rest); now constructor.
  - now constructor.
Qed.

Lemma rsplit1_none (s : string) :
  rsplit1 "@" s = None -> all_chars not_at s = true.
Proof.
  induction s as [|c s IH]; [reflexivity|].
  cbn [rsplit1 all_chars]. destruct (rsplit1 "@" s) as [[a b]|]; [discriminate|].
  unfold not_at at 1. destruct (Ascii.eqb c "@"); [discriminate|].
  intros _. now rewrite IH.
Qed.

Lemma rsplit1_inv (s a b : string) :
  rsplit1 "@" s = Some (a, b) ->
  s = a ++ String "@" b /\ all_chars not_at b = true.
Proof.
  revert a b. induction s as [|c s IH]; intros a b; [discriminate|].
  cbn [rsplit1]. destruct (rsplit1 "@" s) as [[a' b']|] eqn:E.
  - intros H. injection H as <- <-. destruct (IH a' b' eq_refl) as [-> Hb].
    now split.
  - destruct (Ascii.eqb_spec c "@") as [->|_]; [|discriminate].
    intros H. injection H as <- <-. split; [reflexivity | now apply rsplit1_none].
Qed.

End RewriterShape.

Import RewriterShape.

(** All the rewriter does to a line: it leaves out the old time suffixes,
    nothing else (nothing at all when the line has none), and puts
    ", <time>" either at the end, or, with a blank after it, in front of
    the last "@" when there is one that is followed by visible text. *)
Theorem update_line_with_time_shape (line new_time : string) :
  let kept := sub_remove time_suffix_re line in
  subsequence kept line
  /\ (search time_suffix_re line = None -> kept = line)
  /\ ((contains "@" kept = false \/ endswith_char "@" (rstrip kept) = true) ->
      update_line_with_time line new_time = kept ++ ", " ++ new_time)
  /\ (contains "@" kept = true -> endswith_char "@" (rstrip kept) = false ->
      exists a b,
        kept = a ++ String "@" b /\ all_chars not_at b = true
        /\ update_line_with_time line new_time = a ++ ", " ++ new_time ++ " @" ++ b).
Proof.
  intros kept. split; [apply sub_from_subsequence|].
  split; [apply ReFacts.sub_remove_no_match|].
  unfold update_line_with_time. fold kept. split.
  - intros [H|H]; rewrite H; [reflexivity | now rewrite andb_false_r].
  - intros Hat Hend. rewrite Hat, Hend. cbn [negb andb].
    destruct (rsplit1 "@" kept) as [[a b]|] eqn:E.
    + destruct (rsplit1_inv _ _ _ E) as [Hk Hb]. now exists a, b.
    + apply rsplit1_none in E. rewrite contains_at, E in Hat. discriminate.
Qed.

(* ================================================================== *)
(** ** What a run reports *)
(* ================================================================== *)

Module JoinFacts.
Import Text TextFacts LineFacts.


Lemma upper_char_upper (c : ascii) : upper_char (upper_char c) = upper_char c.
Proof. each_char c; reflexivity. Qed.

Lemma upper_char_lower (c : ascii) : upper_char (lower_char c) = upper_char c.
Proof. each_char c; reflexivity. Qed.

Lemma upper_upper (s : string) : upper (upper s) = upper s.
Proof.
  unfold upper. induction s as [|c s IH]; [reflexivity|].
  cbn. now rewrite upper_char_upper, IH.
Qed.

Lemma upper_lower (s : string) : upper (lower s) = upper s.
Proof.
  unfold upper, lower. induction s as [|c s IH]; [reflexivity|].
  cbn. now rewrite upper_char_lower, IH.
Qed.

Lemma find_same {A : Type} (f g : A -> bool) (l : list A) :
  (forall x, f x = g x) -> find f l = find g l.
Proof.
  intros H. induction l as [|x l IH]; [reflexivity|].
  cbn. now rewrite H, IH.
Qed.

End JoinFacts.

Section Tally.
Context {fuzz : FuzzLib}.
#[local] Open Scope list_scope.
Variable config : Config.
Variable official_games : list OfficialGame.

(** what holds of the state of the loop once the lines [seen] are read *)
Definition tally_ok (seen : list string) (st : Scan) : Prop :=
  List.length (updated_lines st) = List.length seen
  /\ skipped_count st = List.length (unmatched_games st)
  /\ updated_count st + skipped_count st <= List.length seen
  /\ (updated_count st = 0 -> updated_lines st = seen)
  /\ (forall lg, current_league st = Some lg -> In lg (leagues config))
  /\ (forall g, In g (unmatched_games st) ->
        match_game g official_games = None
        /\ In (league g) (leagues config)
        /\ exists line, In line seen /\ extract_game_info line (league g) = Some g).

Lemma detect_league_configured (cur : option string) (line lg : string) :
  (forall lg', cur = Some lg' -> In lg' (leagues config)) ->
  detect_league config cur line = Some lg -> In lg (leagues config).
Proof.
  intros Hcur. unfold detect_league.
  destruct (find (names_league line) (leagues config)) as [l|] eqn:E.
  - intros H. injection H as <-. now apply find_some in E.
  - apply Hcur.
Qed.

Lemma parsed_league (line lg : string) (g : Game) :
  extract_game_info line lg = Some g -> league g = lg.
Proof.
  unfold extract_game_info.
  destruct (not_a_fixture (strip line)); [discriminate|].
  destruct (search date_re (strip line)); [|discriminate].
  destruct (parse_date _); [|discriminate].
  destruct (negb _); [discriminate|].
  destruct (if home_marker (strip line) then _ else _); [|discriminate].
  intros H. injection H as <-. reflexivity.
Qed.

Lemma process_line_tally (seen : list string) (st st' : Scan) (line : string) :
  tally_ok seen st ->
  process_line config official_games st line = Some st' ->
  tally_ok (seen ++ [line]) st'.
Proof.
  intros (Hlen & Hskip & Hsum & Hsame & Hcur & Hun).
  unfold process_line.
  set (cur := detect_league config (current_league st) line).
  assert (forall lg, cur = Some lg -> In lg (leagues config)) as Hcur'
      by (intros lg; apply detect_league_configured, Hcur).
  assert (forall g, In g (unmatched_games st) ->
            match_game g official_games = None
            /\ In (league g) (leagues config)
            /\ exists l, In l (seen ++ [line])
                         /\ extract_game_info l (league g) = Some g) as Hun'.
  { intros g Hg. destruct (Hun g Hg) as (Hm & Hl & l & Hin & Hp).
    repeat split; auto. exists l. split; [apply in_or_app; now left | exact Hp]. }
  assert (tally_ok (seen ++ [line]) (pass_through st cur line)) as Hpass.
  { unfold tally_ok, pass_through. cbn. rewrite !length_app. cbn.
    split; [lia|]. split; [exact Hskip|]. split; [lia|].
    split; [intros H0; now rewrite (Hsame H0)|].
    split; [exact Hcur' | exact Hun']. }
  destruct (skip_line config line); [intros H; now injection H as <-|].
  destruct cur as [lg|] eqn:Ecur; [|intros H; now injection H as <-].
  destruct (String.eqb lg ""); [intros H; now injection H as <-|].
  destruct (extract_game_info line lg) as [game|] eqn:Egame;
    [|intros H; now injection H as <-].
  destruct (match_game game official_games) as [found_game|] eqn:Ematch.
  - destruct (convert_to_et _ _); [|discriminate].
    intros H. injection H as <-. unfold tally_ok. cbn. rewrite !length_app. cbn.
    split; [lia|]. split; [exact Hskip|]. split; [lia|].
    split; [discriminate|].
    split; [exact Hcur' | exact Hun'].
  - intros H. injection H as <-. unfold tally_ok. cbn. rewrite !length_app. cbn.
    split; [lia|]. split; [lia|]. split; [lia|].
    split; [intros H0; now rewrite (Hsame H0)|].
    split; [exact Hcur'|].
    intros g Hg. apply in_app_or in Hg as [Hg|[<-|[]]]; [now apply Hun'|].
    split; [exact Ematch|].
    rewrite (parsed_league _ _ _ Egame).
    split; [now apply Hcur'|].
    exists line. split; [apply in_or_app; right; now left | exact Egame].
Qed.

Lemma scan_lines_tally (lines : list string) :
  forall seen st st',
    tally_ok seen st ->
    scan_lines config official_games st lines = Some st' ->
    tally_ok (seen ++ lines) st'.
Proof.
  induction lines as [|line lines IH]; intros seen st st' Hok; cbn [scan_lines].
  - intros H. injection H as <-. now rewrite app_nil_r.
  - destruct (process_line config official_games st line) as [st1|] eqn:E;
      [|discriminate].
    intros H. replace (seen ++ line :: lines) with ((seen ++ [line]) ++ lines)
      by (rewrite <- app_assoc; reflexivity).
    apply (IH _ st1 st'); [|exact H].
    now apply (process_line_tally seen st).
Qed.

Lemma initial_scan_tally : tally_ok [] initial_scan.
Proof.
  unfold tally_ok, initial_scan. cbn.
  split; [reflexivity|]. split; [reflexivity|]. split; [lia|].
  split; [reflexivity|]. split; [discriminate | intros g0 []].
Qed.

(** The two counts of a run and its list of unmatched games fit the file:
    [skipped] is the number of games listed, updated and skipped lines
    together are no more than the lines of the file, and every game listed
    was read off a line of the file under a league of the team, and has no
    match in the pool. *)
Theorem process_schedule_file_tally (text : string) (report : Report) :
  process_schedule_file config official_games text = Some report ->
  skipped report = List.length (unmatched report)
  /\ updated report + skipped report <= List.length (split_lines text)
  /\ forall g, In g (unmatched report) ->
       match_game g official_games = None
       /\ In (league g) (leagues config)
       /\ exists line, In line (split_lines text)
                       /\ extract_game_info line (league g) = Some g.
Proof.
  unfold process_schedule_file. destruct official_games as [|c pool] eqn:Epool.
  - intros H. injection H as <-. cbn. split; [reflexivity|]. split; [lia|]. intros g0 [].
  - rewrite <- Epool.
    destruct (scan_lines config official_games initial_scan (split_lines text))
      as [st|] eqn:E; [|discriminate].
    intros H. injection H as <-. cbn [updated skipped unmatched].
    destruct (scan_lines_tally _ _ _ _ initial_scan_tally E)
      as (_ & Hskip & Hsum & _ & _ & Hun).
    cbn [app] in *. auto.
Qed.


(** The league headers are found whatever the case of the letters of the
    line, or of the league as configured. *)
Theorem detect_league_ignores_case (current : option string) (line : string) :
  detect_league config current (upper line) = detect_league config current line
  /\ detect_league config current (lower line) = detect_league config current line
  /\ forall lg, names_league line (lower lg) = names_league line lg.
Proof.
  unfold detect_league, names_league. repeat split.
  - rewrite (JoinFacts.find_same _ (fun lg => contains (upper lg) (upper line)));
      [reflexivity|].
    intros lg. now rewrite JoinFacts.upper_upper.
  - rewrite (JoinFacts.find_same _ (fun lg => contains (upper lg) (upper line)));
      [reflexivity|].
    intros lg. now rewrite JoinFacts.upper_lower.
  - intros lg. now rewrite JoinFacts.upper_lower.
Qed.

End Tally.

(** a file of the Paris team whose one game has no record in the pool *)
Definition unmatched_sample : string :=
  join_lines ["EuroLeague"; "Oct 7, 2025 - @ Real Madrid"].

Lemma process_schedule_file_tally_sample :
  exists report,
    process_schedule_file (fuzz := RefFuzz.ref_fuzz) paris_config
      [scenario_candidate "EuroLeague"] unmatched_sample = Some report
    /\ skipped report = 1 /\ List.length (unmatched report) = 1.
Proof.
  assert (exists report,
             process_schedule_file (fuzz := RefFuzz.ref_fuzz) paris_config
               [scenario_candidate "EuroLeague"] unmatched_sample = Some report
             /\ skipped report = 1) as (report & Hrun & Hs)
      by (eexists; split; vm_compute; reflexivity).
  exists report. split; [exact Hrun|]. split; [exact Hs|].
  destruct (process_schedule_file_tally (fuzz := RefFuzz.ref_fuzz) _ _ _ _ Hrun)
    as (Hlen & _). now rewrite <- Hlen.
Defined.


(** a property of the pairs of two-digit numbers, checked one by one *)
Definition all_pairs (check : Z -> Z -> bool) : bool :=
  forallb (fun h => forallb (fun m => check (Z.of_nat h) (Z.of_nat m)) (seq 0 100))
          (seq 0 100).

Lemma all_pairs_spec (check : Z -> Z -> bool) :
  all_pairs check = true ->
  forall h m, (0 <= h < 100)%Z -> (0 <= m < 100)%Z -> check h m = true.
Proof.
  intros H h m Hh Hm.
  apply (below_cases 100 (check h)); [|exact Hm].
  apply (below_cases 100
           (fun h => forallb (fun m => check h (Z.of_nat m)) (seq 0 100)));
    [exact H | exact Hh].
Qed.

(** [parse_time] turns away what is no time of day: of the texts "HH:MM"
    with two digits on either side it reads those with an hour below 24
    and a minute below 60, and no other. *)
Theorem parse_time_bounds (h m : Z) :
  (0 <= h < 100)%Z -> (0 <= m < 100)%Z ->
  parse_time (two_digits h ++ ":" ++ two_digits m)
  = (if (h <? 24)%Z && (m <? 60)%Z then Some (mktime h m 0) else None).
Proof.
  intros Hh Hm.
  pose (same := fun (a b : option time) =>
          match a, b with
          | Some x, Some y => time_eqb x y
          | None, None => true
          | _, _ => false
          end).
  assert (forall a b, same a b = true -> a = b) as Hsame.
  { intros [x|] [y|] H; try discriminate; [|reflexivity].
    now rewrite (time_eqb_eq _ _ H). }
  pose (check := fun h m =>
          same (parse_time (two_digits h ++ ":" ++ two_digits m))
               (if (h <? 24)%Z && (m <? 60)%Z then Some (mktime h m 0) else None)).
  assert (all_pairs check = true) as Hall by (vm_compute; reflexivity).
  apply Hsame. exact (all_pairs_spec check Hall _ _ Hh Hm).
Qed.

Lemma parse_time_bounds_midnight :
  parse_time "24:00" = None.
Proof.
  exact (parse_time_bounds 24 0 ltac:(lia) ltac:(lia)).
Defined.
